(** * The chat agent of [langchain.automaton.chat_agent]

    A shallow embedding of [ActionEncoder] (the textual action codec),
    [prompt_generator] (the projection of a message log onto a prompt) and
    [ChatAgent.run] (the bounded agent loop), followed by the properties
    the specification states about them.

    Host-language conventions.
    - A Python [str] is a [string]; each character stands for the code
      point of the same number (0 to 255).
    - Python values that can come out of [ast.literal_eval] are the
      inductive [pyval]; floats, complex numbers, bytes and sets are not
      part of it.
    - A computation that may raise has type [outcome A]. The third result,
      [Unknown], is not a Python behaviour: it marks inputs about which the
      model of a host library function is silent.
    - Interpreter resource limits (recursion depth, the tokenizer's bracket
      nesting limit, the integer/string conversion digit limit, memory) are
      not modelled. *)

From Stdlib Require Import String Ascii List ZArith Lia Bool Arith.
Import ListNotations.
Local Open Scope list_scope.
Local Open Scope string_scope.

(** ** Python values *)

#[local] Unset Elimination Schemes.
Inductive pyval : Type :=
| PNone
| PBool (b : bool)
| PInt (z : Z)
| PStr (s : string)
| PList (xs : list pyval)
| PTuple (xs : list pyval)
| PDict (kvs : list (pyval * pyval)).
#[local] Set Elimination Schemes.

(** Exception classes raised by the modelled code. *)
Inductive exn : Type :=
| SyntaxError
| ValueError
| TypeError
| KeyError
| IndexError
| AssertionError
| OtherError (tag : string).

Inductive outcome (A : Type) : Type :=
| Return (a : A)
| Raise (e : exn)
| Unknown.

Arguments Return {A} a.
Arguments Raise {A} e.
Arguments Unknown {A}.

Definition bind {A B : Type} (m : outcome A) (k : A -> outcome B) : outcome B :=
  match m with
  | Return a => k a
  | Raise e => Raise e
  | Unknown => Unknown
  end.

Declare Scope outcome_scope.
Delimit Scope outcome_scope with outcome.
Notation "x <- m ;; k" := (bind m (fun x => k))
  (at level 61, m at next level, right associativity) : outcome_scope.
Notation "' p <- m ;; k" := (bind m (fun x => match x with p => k end))
  (at level 61, p pattern, m at next level, right associativity) : outcome_scope.
Local Open Scope outcome_scope.

(** Characters that cannot be written inside a string literal here. *)
Definition dquote : ascii := ascii_of_nat 34.
Definition char_tab : ascii := ascii_of_nat 9.
Definition char_lf : ascii := ascii_of_nat 10.
Definition char_cr : ascii := ascii_of_nat 13.
Definition char_bs : ascii := ascii_of_nat 92.

(** *** Truth value, equality and subscripting *)

(** [bool(v)]: the empty containers, [0], [False], [None] and the empty
    string are false, everything else is true. *)
Definition py_truthy (v : pyval) : bool :=
  match v with
  | PNone => false
  | PBool b => b
  | PInt z => negb (z =? 0)%Z
  | PStr s => negb (s =? "")%string
  | PList xs => match xs with [] => false | _ => true end
  | PTuple xs => match xs with [] => false | _ => true end
  | PDict kvs => match kvs with [] => false | _ => true end
  end.

(** [a or b] *)
Definition py_or (a b : pyval) : pyval := if py_truthy a then a else b.

(** [v == s] for a string constant [s]: only the string [s] itself is equal
    to it. *)
Definition eq_str (v : pyval) (s : string) : bool :=
  match v with
  | PStr t => (t =? s)%string
  | _ => false
  end.

(** Whether a value can be a dictionary key. *)
Fixpoint hashable (v : pyval) : bool :=
  match v with
  | PNone | PBool _ | PInt _ | PStr _ => true
  | PTuple xs => forallb hashable xs
  | PList _ | PDict _ => false
  end.

(** Equality of dictionary keys: [True == 1] and [False == 0]. *)
Definition key_num (v : pyval) : option Z :=
  match v with
  | PBool b => Some (if b then 1 else 0)%Z
  | PInt z => Some z
  | _ => None
  end.

Fixpoint key_eq (a b : pyval) {struct a} : bool :=
  match key_num a, key_num b with
  | Some x, Some y => (x =? y)%Z
  | Some _, None | None, Some _ => false
  | None, None =>
    match a, b with
    | PNone, PNone => true
    | PStr s, PStr t => (s =? t)%string
    | PTuple xs, PTuple ys =>
      (fix all2 (xs ys : list pyval) {struct xs} : bool :=
         match xs, ys with
         | [], [] => true
         | x :: xs', y :: ys' => key_eq x y && all2 xs' ys'
         | _, _ => false
         end) xs ys
    | _, _ => false
    end
  end.

(** [d[k] = v] on the entries of a dictionary: an equal key keeps its place
    and its first spelling, a new key goes last. *)
Fixpoint dict_set (kvs : list (pyval * pyval)) (k v : pyval)
  : list (pyval * pyval) :=
  match kvs with
  | [] => [(k, v)]
  | (k', v') :: rest =>
    if key_eq k' k then (k', v) :: rest else (k', v') :: dict_set rest k v
  end.

Fixpoint dict_get (kvs : list (pyval * pyval)) (k : pyval) : option pyval :=
  match kvs with
  | [] => None
  | (k', v') :: rest => if key_eq k' k then Some v' else dict_get rest k
  end.

(** [data[key]] for a string [key]: a dictionary is looked up ([KeyError]
    when the key is missing); strings, sequences, numbers and [None] raise
    [TypeError]. *)
Definition subscript (data : pyval) (key : string) : outcome pyval :=
  match data with
  | PDict kvs =>
    match dict_get kvs (PStr key) with
    | Some v => Return v
    | None => Raise KeyError
    end
  | _ => Raise TypeError
  end.

(** *** [repr] and [str] *)

Definition digit_char (d : Z) : ascii := ascii_of_N (48 + Z.to_N d).

Definition hex_char (d : N) : ascii :=
  if (d <? 10)%N then ascii_of_N (48 + d) else ascii_of_N (87 + d).

(** Decimal digits of a non-negative integer, most significant first. The
    fuel is the number of binary digits, which bounds the decimal ones. *)
Fixpoint dec_digits (fuel : nat) (n : Z) (acc : string) : string :=
  let acc' := String (digit_char (n mod 10)) acc in
  match fuel with
  | O => acc'
  | S fuel' => if (n / 10 =? 0)%Z then acc' else dec_digits fuel' (n / 10) acc'
  end.

Definition repr_int (z : Z) : string :=
  if (z <? 0)%Z
  then String "-" (dec_digits (Z.to_nat (Z.log2 (- z))) (- z) "")
  else dec_digits (Z.to_nat (Z.log2 z)) z "".

Fixpoint has_char (c : ascii) (s : string) : bool :=
  match s with
  | EmptyString => false
  | String d s' => (d =? c)%char || has_char c s'
  end.

(** [str.isprintable] on the code points 0 to 255: the controls, the
    no-break space and the soft hyphen are not printable. *)
Definition is_printable (c : ascii) : bool :=
  let n := N_of_ascii c in
  ((32 <=? n) && (n <=? 126) || (161 <=? n) && negb (n =? 173))%N.

(** The quote [repr] puts around a string: a double quote when the string
    has a single quote and no double quote, a single quote otherwise. *)
Definition repr_quote (s : string) : ascii :=
  if has_char "'" s && negb (has_char dquote s) then dquote else "'"%char.

Definition repr_char (q c : ascii) : string :=
  if ((c =? q) || (c =? char_bs))%char then String char_bs (String c "")
  else if (c =? char_tab)%char then String char_bs "t"
  else if (c =? char_lf)%char then String char_bs "n"
  else if (c =? char_cr)%char then String char_bs "r"
  else if is_printable c then String c ""
  else String char_bs (String "x"
         (String (hex_char (N_of_ascii c / 16))
            (String (hex_char (N_of_ascii c mod 16)) ""))).

Fixpoint repr_chars (q : ascii) (s : string) : string :=
  match s with
  | EmptyString => ""
  | String c s' => repr_char q c ++ repr_chars q s'
  end.

Definition repr_str (s : string) : string :=
  let q := repr_quote s in
  String q (repr_chars q s ++ String q "").

(** Items of a display, separated by a comma and a space. *)
Fixpoint join_items (xs : list string) : string :=
  match xs with
  | [] => ""
  | [x] => x
  | x :: xs' => x ++ ", " ++ join_items xs'
  end.

Fixpoint py_repr (v : pyval) : string :=
  match v with
  | PNone => "None"
  | PBool b => if b then "True" else "False"
  | PInt z => repr_int z
  | PStr s => repr_str s
  | PList xs => "[" ++ join_items (map py_repr xs) ++ "]"
  | PTuple xs =>
    match xs with
    | [x] => "(" ++ py_repr x ++ ",)"
    | _ => "(" ++ join_items (map py_repr xs) ++ ")"
    end
  | PDict kvs =>
    "{" ++ join_items
             (map (fun kv => py_repr (fst kv) ++ ": " ++ py_repr (snd kv)) kvs)
        ++ "}"
  end.

(** [str(v)], which is what an f-string field [{v}] inserts: a string is
    inserted as it is, any other value through its [repr]. *)
Definition py_str (v : pyval) : string :=
  match v with
  | PStr s => s
  | _ => py_repr v
  end.

(** ** The delimiter search

    [self.pattern] is [<action>(?P<action_blob>.*?)</action>] compiled with
    [re.DOTALL]. A search succeeds at the leftmost opening tag that is
    followed by a closing tag, and the lazy group then stops at the first
    closing tag after it. A closing tag after a later opening tag is also
    after the first one, so the match, when there is one, starts at the
    first opening tag. *)

(** [drop_prefix p s] is the rest of [s] after its prefix [p]. *)
Fixpoint drop_prefix (p s : string) : option string :=
  match p, s with
  | EmptyString, _ => Some s
  | String a p', String b s' => if (a =? b)%char then drop_prefix p' s' else None
  | String _ _, EmptyString => None
  end.

(** [split_first p s] cuts [s] around the first occurrence of [p]. *)
Fixpoint split_first (p s : string) : option (string * string) :=
  match drop_prefix p s with
  | Some rest => Some ("", rest)
  | None =>
    match s with
    | EmptyString => None
    | String c s' =>
      match split_first p s' with
      | Some (before, rest) => Some (String c before, rest)
      | None => None
      end
    end
  end.

(** [self.pattern.search(text)], as the captured group [action_blob]. *)
Definition pattern_search (text : string) : option string :=
  match split_first "<action>" text with
  | None => None
  | Some (_, after) =>
    match split_first "</action>" after with
    | None => None
    | Some (action_blob, _) => Some action_blob
    end
  end.

(** ** A model of [ast.literal_eval]

    The evaluator covers this fragment of the literal syntax: [None],
    [True], [False], decimal integers with an optional minus sign, strings
    in single or double quotes with the escapes that [repr] produces, list
    displays and dictionary displays, with spaces between tokens. It raises
    [SyntaxError] where the input ends inside a literal and [TypeError] for
    a list or dictionary used as a key. On every other input outside the
    fragment (floats, tuples, sets, bytes, string prefixes, triple quotes,
    adjacent strings, other escapes, other white space, names) the result
    is [Unknown]. *)
Module ast.

Definition is_digit (c : ascii) : bool :=
  let n := N_of_ascii c in ((48 <=? n) && (n <=? 57))%N.

Definition digit_val (c : ascii) : Z := Z.of_N (N_of_ascii c) - 48.

Definition is_ident_char (c : ascii) : bool :=
  let n := N_of_ascii c in
  ((48 <=? n) && (n <=? 57) || (65 <=? n) && (n <=? 90) || (n =? 95)
   || (97 <=? n) && (n <=? 122) || (128 <=? n))%N.

Definition is_control (c : ascii) : bool :=
  let n := N_of_ascii c in ((n <? 32) || (n =? 127))%N.

Definition hex_val (c : ascii) : option N :=
  let n := N_of_ascii c in
  if ((48 <=? n) && (n <=? 57))%N then Some (n - 48)%N
  else if ((97 <=? n) && (n <=? 102))%N then Some (n - 87)%N
  else if ((65 <=? n) && (n <=? 70))%N then Some (n - 55)%N
  else None.

Fixpoint skip_spaces (s : string) : string :=
  match s with
  | String c s' => if (c =? " ")%char then skip_spaces s' else s
  | EmptyString => s
  end.

Fixpoint scan_digits (acc : Z) (s : string) : Z * string :=
  match s with
  | String c s' =>
    if is_digit c then scan_digits (acc * 10 + digit_val c) s' else (acc, s)
  | EmptyString => (acc, s)
  end.

Definition leading_zero (s : string) : bool :=
  match s with
  | String c (String d _) => (c =? "0")%char && is_digit d
  | _ => false
  end.

Definition token_goes_on (rest : string) : bool :=
  match rest with
  | String c _ => is_ident_char c || (c =? ".")%char
  | EmptyString => false
  end.

(** A decimal integer token at the head of [s]. *)
Definition scan_number (s : string) : outcome (Z * string) :=
  let (n, rest) := scan_digits 0 s in
  if leading_zero s || token_goes_on rest then Unknown else Return (n, rest).

(** One of the three constant names at the head of [s]. *)
Definition scan_keyword (s : string) : outcome (pyval * string) :=
  let done (v : pyval) (rest : string) :=
    if token_goes_on rest then Unknown else Return (v, rest) in
  match drop_prefix "None" s with
  | Some rest => done PNone rest
  | None =>
    match drop_prefix "True" s with
    | Some rest => done (PBool true) rest
    | None =>
      match drop_prefix "False" s with
      | Some rest => done (PBool false) rest
      | None => Unknown
      end
    end
  end.

(** The body of a string literal opened by the quote [q], up to and
    including the closing quote. *)
Fixpoint scan_string (q : ascii) (s : string) : outcome (string * string) :=
  match s with
  | EmptyString => Raise SyntaxError
  | String c s' =>
    if (c =? q)%char then Return ("", s')
    else if (c =? char_bs)%char then
      match s' with
      | EmptyString => Raise SyntaxError
      | String e s'' =>
        let literally (d : ascii) :=
          '(body, rest) <- scan_string q s'' ;; Return (String d body, rest) in
        if ((e =? char_bs) || (e =? "'") || (e =? dquote))%char then literally e
        else if (e =? "n")%char then literally char_lf
        else if (e =? "r")%char then literally char_cr
        else if (e =? "t")%char then literally char_tab
        else if (e =? "x")%char then
          match s'' with
          | String h1 (String h2 s3) =>
            match hex_val h1, hex_val h2 with
            | Some a, Some b =>
              '(body, rest) <- scan_string q s3 ;;
              Return (String (ascii_of_N (16 * a + b)) body, rest)
            | _, _ => Unknown
            end
          | _ => Raise SyntaxError
          end
        else Unknown
      end
    else if is_control c then Unknown
    else '(body, rest) <- scan_string q s' ;; Return (String c body, rest)
  end.

(** The syntax tree of a literal, with dictionary displays still holding
    their entries as written. *)
Fixpoint parse_value (fuel : nat) (s : string) {struct fuel}
  : outcome (pyval * string) :=
  match fuel with
  | O => Unknown
  | S fuel' =>
    match s with
    | EmptyString => Raise SyntaxError
    | String c s' =>
      if ((c =? "'") || (c =? dquote))%char then
        '(str, rest) <- scan_string c s' ;; Return (PStr str, rest)
      else if (c =? "[")%char then
        '(xs, rest) <- parse_items fuel' s' ;; Return (PList xs, rest)
      else if (c =? "{")%char then
        '(kvs, rest) <- parse_pairs fuel' s' ;; Return (PDict kvs, rest)
      else if (c =? "-")%char then
        match skip_spaces s' with
        | EmptyString => Raise SyntaxError
        | String d _ as s1 =>
          if is_digit d
          then '(n, rest) <- scan_number s1 ;; Return (PInt (- n), rest)
          else Unknown
        end
      else if is_digit c then
        '(n, rest) <- scan_number s ;; Return (PInt n, rest)
      else scan_keyword s
    end
  end

with parse_items (fuel : nat) (s : string) {struct fuel}
  : outcome (list pyval * string) :=
  match fuel with
  | O => Unknown
  | S fuel' =>
    match skip_spaces s with
    | EmptyString => Raise SyntaxError
    | String c s' as s1 =>
      if (c =? "]")%char then Return ([], s')
      else
        '(v, r1) <- parse_value fuel' s1 ;;
        match skip_spaces r1 with
        | EmptyString => Raise SyntaxError
        | String d r2 =>
          if (d =? ",")%char then
            '(vs, r3) <- parse_items fuel' r2 ;; Return (v :: vs, r3)
          else if (d =? "]")%char then Return ([v], r2)
          else Unknown
        end
    end
  end

with parse_pairs (fuel : nat) (s : string) {struct fuel}
  : outcome (list (pyval * pyval) * string) :=
  match fuel with
  | O => Unknown
  | S fuel' =>
    match skip_spaces s with
    | EmptyString => Raise SyntaxError
    | String c s' as s1 =>
      if (c =? "}")%char then Return ([], s')
      else
        '(k, r1) <- parse_value fuel' s1 ;;
        match skip_spaces r1 with
        | EmptyString => Raise SyntaxError
        | String d r2 =>
          if (d =? ":")%char then
            '(v, r3) <- parse_value fuel' (skip_spaces r2) ;;
            match skip_spaces r3 with
            | EmptyString => Raise SyntaxError
            | String e r4 =>
              if (e =? ",")%char then
                '(kvs, r5) <- parse_pairs fuel' r4 ;;
                Return ((k, v) :: kvs, r5)
              else if (e =? "}")%char then Return ([(k, v)], r4)
              else Unknown
            end
          else Unknown
        end
    end
  end.

(** The value of a syntax tree: a dictionary display inserts its entries
    from left to right, which hashes each key. *)
Fixpoint convert (v : pyval) : outcome pyval :=
  match v with
  | PList xs =>
    xs' <- (fix each (l : list pyval) : outcome (list pyval) :=
              match l with
              | [] => Return []
              | x :: l' =>
                x' <- convert x ;; r <- each l' ;; Return (x' :: r)
              end) xs ;;
    Return (PList xs')
  | PDict kvs =>
    kvs' <- (fix each (l acc : list (pyval * pyval))
               : outcome (list (pyval * pyval)) :=
               match l with
               | [] => Return acc
               | (k, x) :: l' =>
                 k' <- convert k ;;
                 x' <- convert x ;;
                 if hashable k' then each l' (dict_set acc k' x')
                 else Raise TypeError
               end) kvs [] ;;
    Return (PDict kvs')
  | _ => Return v
  end.

(** [ast.literal_eval(s)] *)
Definition literal_eval (s : string) : outcome pyval :=
  '(tree, rest) <- parse_value (S (String.length s)) s ;;
  match skip_spaces rest with
  | EmptyString => convert tree
  | String _ _ => Unknown
  end.

End ast.

(** ** Message log entries *)

Inductive message_type : Type := human | ai | system.

(** [BaseMessage], with the two fields this module reads or writes. *)
Record BaseMessage : Type := mkMessage {
  type : message_type;
  content : string
}.

Definition HumanMessage (content : string) : BaseMessage := mkMessage human content.
Definition AIMessage (content : string) : BaseMessage := mkMessage ai content.
Definition SystemMessage (content : string) : BaseMessage := mkMessage system content.

(** Modelled from the spec: [langchain.automaton.typedefs] is not part of
    the sources at hand. Following the data model of the specification, an
    entry of the log is a message, an [Invoke] ([FunctionCall]), a [Result]
    ([FunctionResult]) or a [Finish] ([AgentFinish]); the entries are plain
    value objects that keep the fields they are built from. *)
Inductive MessageLike : Type :=
| Message (m : BaseMessage)
| FunctionCall (name arguments : pyval)
| FunctionResult (result : pyval)
| AgentFinish (result : pyval).

(** Modelled from the spec: [MessageLog] (same missing module) is an
    ordered, append-only sequence of entries. It is false as a condition
    exactly when it has no entry, [message_log[-1]] is its last entry and
    [add_messages] appends at the end. *)
Definition MessageLog : Type := list MessageLike.

Definition add_messages (log : MessageLog) (messages : list MessageLike)
  : MessageLog := (log ++ messages)%list.

Definition last_message (log : MessageLog) : outcome MessageLike :=
  match rev log with
  | [] => Raise IndexError
  | m :: _ => Return m
  end.

Definition is_finish (m : MessageLike) : bool :=
  match m with
  | AgentFinish _ => true
  | _ => false
  end.

(** ** [ActionEncoder] *)

Section ActionEncoder.

(** [ast.literal_eval], as the codec sees it. *)
Variable literal_eval : string -> outcome pyval.

(** [decode]: the content of a message or the string itself is searched
    for the first block; without a match the result is [None]. The source
    evaluates [data["action"]] once for the test and once more for the
    [FunctionCall]. *)
Definition decode (text : BaseMessage + string)
  : outcome (option MessageLike) :=
  let text :=
    match text with
    | inl message => content message
    | inr s => s
    end in
  match pattern_search text with
  | Some action_blob =>
    data <- literal_eval action_blob ;;
    name <- subscript data "action" ;;
    if eq_str name "Final Answer" then
      result <- subscript data "action_input" ;;
      Return (Some (AgentFinish result))
    else
      name' <- subscript data "action" ;;
      action_input <- subscript data "action_input" ;;
      Return (Some (FunctionCall name' (py_or action_input (PDict []))))
  | None => Return None
  end.

End ActionEncoder.

(** [encode_as_str] takes a [FunctionCall], given here by its two fields. *)
Definition encode_as_str (name arguments : pyval) : string :=
  if eq_str name "Final Answer" then
    "<action>{'action': 'Final Answer', 'action_input': '"
      ++ py_str arguments ++ "'}</action>"
  else
    "<action>{'action': '" ++ py_str name ++ "', 'action_input': "
      ++ py_str arguments ++ "}</action>".

(** ** [prompt_generator] *)

Definition prompt_generator (log : MessageLog) : list BaseMessage :=
  fold_left
    (fun (messages : list BaseMessage) (message : MessageLike) =>
       match message with
       | Message m => (messages ++ [m])%list
       | FunctionResult result =>
         (messages ++ [SystemMessage ("Observation: " ++ py_str result)])%list
       | _ => messages
       end)
    log [].

(** ** [ChatAgent] *)

(** What a call of [run] leaves behind: how it ended, the message log, and
    the number of times the program was invoked. *)
Record run_result : Type := mkRun {
  ending : outcome unit;
  final_log : MessageLog;
  invocations : nat
}.

Section ChatAgent.

(** [self.llm_program.invoke]: the number of earlier invocations stands
    for the state a collaborator may keep between calls. *)
Variable llm_program_invoke : nat -> MessageLog -> outcome (list MessageLike).

(** The [for] loop of [run], with [budget] iterations left. *)
Fixpoint run_loop (budget : nat) (message_log : MessageLog) (calls : nat)
  : run_result :=
  match budget with
  | O => mkRun (Return tt) message_log calls
  | S budget' =>
    match last_message message_log with
    | Return last =>
      if is_finish last then mkRun (Return tt) message_log calls
      else
        match llm_program_invoke calls message_log with
        | Return messages =>
          run_loop budget' (add_messages message_log messages) (S calls)
        | Raise e => mkRun (Raise e) message_log (S calls)
        | Unknown => mkRun Unknown message_log (S calls)
        end
    | Raise e => mkRun (Raise e) message_log calls
    | Unknown => mkRun Unknown message_log calls
    end
  end.

(** [run]: the guard [if not message_log] comes first; the loop then has
    [range(max_iterations)] iterations, none for a budget below one. *)
Definition run (max_iterations : Z) (message_log : MessageLog) : run_result :=
  match message_log with
  | [] => mkRun (Raise AssertionError) message_log 0
  | _ :: _ => run_loop (Z.to_nat max_iterations) message_log 0
  end.

End ChatAgent.

(** Modelled from the spec: [create_llm_program] lives in
    [langchain.automaton.runnables], which is not part of the sources at
    hand. Per the specification of one iteration, the program obtains the
    model's text for the log, decodes it with the codec, and returns the
    entries to append: the model's message, then the [Finish] entry when
    the text decodes to one, or the [Result] of the named tool when it
    decodes to an [Invoke]. A text without action yields the message
    alone; a decode failure goes to the caller. *)
Definition create_llm_program
    (literal_eval : string -> outcome pyval)
    (llm : nat -> MessageLog -> outcome string)
    (tools : pyval -> pyval -> pyval)
  : nat -> MessageLog -> outcome (list MessageLike) :=
  fun calls message_log =>
    text <- llm calls message_log ;;
    parsed <- decode literal_eval (inr text) ;;
    match parsed with
    | Some (AgentFinish result) =>
      Return [Message (AIMessage text); AgentFinish result]
    | Some (FunctionCall name arguments) =>
      Return [Message (AIMessage text); FunctionResult (tools name arguments)]
    | _ => Return [Message (AIMessage text)]
    end.

(** ** Vocabulary of the statements *)

(** [occurs p s]: the string [p] is a substring of [s]. *)
Definition occurs (p s : string) : Prop :=
  exists pre post, s = pre ++ p ++ post.

(** The text [decode] searches: the content of a message, or the string. *)
Definition text_of (text : BaseMessage + string) : string :=
  match text with
  | inl message => content message
  | inr s => s
  end.

(** The structure [decode] requires of a block's value: both subscripts
    [data["action"]] and [data["action_input"]] succeed. *)
Definition has_structure (data : pyval) : bool :=
  match subscript data "action", subscript data "action_input" with
  | Return _, Return _ => true
  | _, _ => false
  end.

(** A block is malformed when the literal evaluator raises on it, or when
    its value lacks the required structure. *)
Definition malformed (literal_eval : string -> outcome pyval) (blob : string)
  : Prop :=
  (exists e, literal_eval blob = Raise e) \/
  (exists data, literal_eval blob = Return data /\ has_structure data = false).

(** The text of the injection example: an action block whose name is
    spelled like a call of [__import__]. *)
Definition injection_name : string :=
  "__import__(" ++ String dquote ("os" ++ String dquote ")").

Definition injection_text : string :=
  "<action>{'action': '" ++ injection_name
    ++ "', 'action_input': {}}</action>".

(** Characters a single-quoted literal holds as they are written:
    printable, and neither the single quote nor the backslash. *)
Definition plain_char (c : ascii) : bool :=
  is_printable c && negb (c =? "'")%char && negb (c =? char_bs)%char.

Fixpoint plain_text (s : string) : bool :=
  match s with
  | EmptyString => true
  | String c s' => plain_char c && plain_text s'
  end.

Definition is_str (v : pyval) : bool :=
  match v with
  | PStr _ => true
  | _ => false
  end.

(** No two keys of the list are equal as dictionary keys. *)
Fixpoint distinct_keys (ks : list pyval) : bool :=
  match ks with
  | [] => true
  | k :: ks' => forallb (fun k' => negb (key_eq k k')) ks' && distinct_keys ks'
  end.

(** JSON-safe values, floats apart: [None], booleans, integers, strings,
    lists of such values, and mappings from distinct strings to them. *)
Fixpoint json_safe (v : pyval) : bool :=
  match v with
  | PNone | PBool _ | PInt _ | PStr _ => true
  | PList xs => forallb json_safe xs
  | PTuple _ => false
  | PDict kvs =>
    distinct_keys (map fst kvs)
    && forallb (fun kv => is_str (fst kv) && json_safe (snd kv)) kvs
  end.

Definition json_mapping (v : pyval) : bool :=
  match v with
  | PDict _ => json_safe v
  | _ => false
  end.

(** The text [encode_as_str] puts between the two tags. *)
Definition action_body (name arguments : pyval) : string :=
  if eq_str name "Final Answer" then
    "{'action': 'Final Answer', 'action_input': '" ++ py_str arguments ++ "'}"
  else
    "{'action': '" ++ py_str name ++ "', 'action_input': "
      ++ py_str arguments ++ "}".

(** Induction on values, through the lists and entries they hold. *)
Section PyvalInduction.

Variable P : pyval -> Prop.
Hypothesis HNone : P PNone.
Hypothesis HBool : forall b, P (PBool b).
Hypothesis HInt : forall z, P (PInt z).
Hypothesis HStr : forall s, P (PStr s).
Hypothesis HList : forall xs, Forall P xs -> P (PList xs).
Hypothesis HTuple : forall xs, Forall P xs -> P (PTuple xs).
Hypothesis HDict :
  forall kvs, Forall (fun kv => P (fst kv) /\ P (snd kv)) kvs -> P (PDict kvs).

Fixpoint pyval_ind (v : pyval) : P v :=
  match v with
  | PNone => HNone
  | PBool b => HBool b
  | PInt z => HInt z
  | PStr s => HStr s
  | PList xs =>
    HList xs
          ((fix each (l : list pyval) : Forall P l :=
              match l with
              | [] => Forall_nil P
              | x :: l' => Forall_cons x (pyval_ind x) (each l')
              end) xs)
  | PTuple xs =>
    HTuple xs
           ((fix each (l : list pyval) : Forall P l :=
               match l with
               | [] => Forall_nil P
               | x :: l' => Forall_cons x (pyval_ind x) (each l')
               end) xs)
  | PDict kvs =>
    HDict kvs
          ((fix each (l : list (pyval * pyval))
              : Forall (fun kv => P (fst kv) /\ P (snd kv)) l :=
              match l with
              | [] => Forall_nil _
              | kv :: l' =>
                Forall_cons kv
                            (conj (pyval_ind (fst kv)) (pyval_ind (snd kv)))
                            (each l')
              end) kvs)
  end.

End PyvalInduction.

(** What may follow a number or a constant name. *)
Definition follow_ok (rest : string) : bool := negb (ast.token_goes_on rest).

(** [reads_back v]: with enough fuel, the parser reads the text [repr]
    writes for [v] back into [v], and leaves what follows. *)
Definition reads_back (v : pyval) : Prop :=
  json_safe v = true ->
  forall (fuel : nat) (rest : string),
    String.length (py_repr v) <= fuel ->
    follow_ok rest = true ->
    ast.parse_value fuel (py_repr v ++ rest) = Return (v, rest).

(** No entry of the list is an [AgentFinish]. *)
Definition no_finish (entries : list MessageLike) : Prop :=
  Forall (fun m => is_finish m = false) entries.

(** Whether a value is a mapping. *)
Definition is_dict (v : pyval) : bool :=
  match v with
  | PDict _ => true
  | _ => false
  end.

(** The entries the prompt shows: messages and function results. *)
Definition presentable (m : MessageLike) : bool :=
  match m with
  | Message _ | FunctionResult _ => true
  | _ => false
  end.

(** * Properties *)

(** ** Strings and the delimiter search *)

Lemma append_assoc (a b c : string) : (a ++ b) ++ c = a ++ (b ++ c).
Proof. induction a as [|x a IH]; simpl; [reflexivity | now rewrite IH]. Qed.

Lemma append_nil_r (a : string) : a ++ "" = a.
Proof. induction a as [|x a IH]; simpl; [reflexivity | now rewrite IH]. Qed.

Lemma length_append (a b : string) :
  String.length (a ++ b) = String.length a + String.length b.
Proof. induction a as [|x a IH]; simpl; [reflexivity | now rewrite IH]. Qed.

Lemma drop_prefix_app (p r : string) : drop_prefix p (p ++ r) = Some r.
Proof.
  induction p as [|a p IH]; simpl.
  - reflexivity.
  - now rewrite Ascii.eqb_refl.
Qed.

Lemma drop_prefix_some (p s r : string) :
  drop_prefix p s = Some r -> s = p ++ r.
Proof.
  revert s; induction p as [|a p IH]; intros s H; simpl in *.
  - now inversion H.
  - destruct s as [|b s]; [discriminate|].
    destruct (Ascii.eqb_spec a b) as [->|]; [|discriminate].
    now rewrite (IH _ H).
Qed.

Lemma split_first_eq (p s : string) :
  split_first p s =
  match drop_prefix p s with
  | Some rest => Some ("", rest)
  | None =>
    match s with
    | EmptyString => None
    | String c s' =>
      match split_first p s' with
      | Some (before, rest) => Some (String c before, rest)
      | None => None
      end
    end
  end.
Proof. destruct s; reflexivity. Qed.

Lemma split_first_sound (p s a b : string) :
  split_first p s = Some (a, b) -> s = a ++ p ++ b.
Proof.
  revert a b; induction s as [|c s IH]; intros a b H;
    rewrite split_first_eq in H;
    destruct (drop_prefix p _) eqn:E.
  - inversion H; subst. exact (drop_prefix_some _ _ _ E).
  - discriminate.
  - inversion H; subst. exact (drop_prefix_some _ _ _ E).
  - destruct (split_first p s) as [[x y]|]; [|discriminate].
    inversion H; subst. simpl. now rewrite (IH x b eq_refl).
Qed.

(** The cut is at the first occurrence: no occurrence starts earlier. *)
Lemma split_first_minimal (p s a b pre post : string) :
  split_first p s = Some (a, b) -> s = pre ++ p ++ post ->
  String.length a <= String.length pre.
Proof.
  revert a b pre; induction s as [|c s IH]; intros a b pre H E;
    rewrite split_first_eq in H;
    destruct (drop_prefix p _) eqn:D.
  - inversion H; subst. simpl. lia.
  - discriminate.
  - inversion H; subst. simpl. lia.
  - destruct pre as [|x pre].
    + simpl in E. rewrite E, drop_prefix_app in D. discriminate.
    + simpl in E. inversion E; subst.
      destruct (split_first p (pre ++ p ++ post)) as [[u v]|] eqn:F;
        [|discriminate].
      inversion H; subst. simpl.
      specialize (IH u b pre eq_refl eq_refl). lia.
Qed.

Lemma split_first_complete (p s : string) :
  occurs p s -> exists a b, split_first p s = Some (a, b).
Proof.
  intros (pre & post & ->).
  induction pre as [|x pre IH]; rewrite split_first_eq.
  - simpl. rewrite drop_prefix_app. eauto.
  - destruct (drop_prefix p _); [eauto|].
    simpl. destruct IH as (a & b & ->). eauto.
Qed.

Lemma split_first_none (p s : string) :
  split_first p s = None <-> ~ occurs p s.
Proof.
  split.
  - intros H O. apply split_first_complete in O as (a & b & E). congruence.
  - intros N. destruct (split_first p s) as [[a b]|] eqn:E; [|reflexivity].
    exfalso. apply N. exists a, b. now apply split_first_sound.
Qed.

(** Two ways to write one string as a concatenation: the shorter left part
    is a prefix of the longer one. *)
Lemma append_eq_split (a b c d : string) :
  a ++ b = c ++ d -> String.length a <= String.length c ->
  exists m, c = a ++ m /\ b = m ++ d.
Proof.
  revert c; induction a as [|x a IH]; intros c E L.
  - exists c. simpl in *. auto.
  - destruct c as [|y c]; [simpl in L; lia|].
    simpl in E. inversion E; subst.
    destruct (IH c H1) as (m & -> & ->); [simpl in L; lia|].
    exists m. auto.
Qed.

(** The search finds a blob exactly in the texts that hold an opening tag
    followed, somewhere, by a closing tag. *)
Lemma pattern_search_none (text : string) :
  pattern_search text = None <->
  ~ exists pre blob post,
      text = pre ++ "<action>" ++ blob ++ "</action>" ++ post.
Proof.
  unfold pattern_search. split.
  - intros H (pre & blob & post & E).
    destruct (split_first "<action>" text) as [[a after]|] eqn:S1.
    + destruct (split_first "</action>" after) as [[x y]|] eqn:S2;
        [discriminate|].
      apply split_first_none in S2. apply S2.
      pose proof (split_first_minimal _ _ _ _ pre (blob ++ "</action>" ++ post)
                    S1 E) as L.
      apply split_first_sound in S1. rewrite S1 in E.
      assert (E' : (a ++ "<action>") ++ after
                   = (pre ++ "<action>") ++ (blob ++ "</action>" ++ post))
        by (rewrite !append_assoc; exact E).
      apply append_eq_split in E' as (m & _ & ->).
      * exists (m ++ blob), post. now rewrite !append_assoc.
      * rewrite !length_append. simpl. lia.
    + apply split_first_none in S1. apply S1.
      exists pre, (blob ++ "</action>" ++ post). exact E.
  - intros N.
    destruct (split_first "<action>" text) as [[a after]|] eqn:S1;
      [|reflexivity].
    destruct (split_first "</action>" after) as [[x y]|] eqn:S2;
      [|reflexivity].
    exfalso. apply N.
    apply split_first_sound in S1, S2. subst.
    exists a, x, y. reflexivity.
Qed.

Lemma has_char_app (c : ascii) (a b : string) :
  has_char c (a ++ b) = has_char c a || has_char c b.
Proof.
  induction a as [|x a IH]; simpl; [reflexivity|].
  now rewrite IH, orb_assoc.
Qed.

(** A pattern at the head of [a ++ t] either lies inside [a] or runs over
    its end. *)
Lemma drop_prefix_app_cases (p a t r : string) :
  drop_prefix p (a ++ t) = Some r ->
  (exists r', drop_prefix p a = Some r') \/
  (exists m, p = a ++ m /\ drop_prefix m t = Some r).
Proof.
  revert a; induction p as [|x p IH]; intros a H.
  - left. simpl. eauto.
  - destruct a as [|y a].
    + right. exists (String x p). auto.
    + simpl in H. simpl.
      destruct (Ascii.eqb_spec x y) as [->|]; [|discriminate].
      destruct (IH a H) as [(r' & E)|(m & -> & E)]; [left; eauto|].
      right. exists m. auto.
Qed.

(** When the first character of a pattern occurs nowhere else in it, the
    first occurrence in [a ++ p ++ b] is the one written, provided [a]
    holds none. *)
Lemma split_first_app (c : ascii) (q a b : string) :
  has_char c q = false -> ~ occurs (String c q) a ->
  split_first (String c q) (a ++ String c q ++ b) = Some (a, b).
Proof.
  intros Hq. induction a as [|x a IH]; intros N; rewrite split_first_eq.
  - change ("" ++ String c q ++ b) with (String c q ++ b).
    now rewrite drop_prefix_app.
  - destruct (drop_prefix _ _) eqn:D.
    + exfalso.
      apply drop_prefix_app_cases in D as [(r' & E)|(m & E & D)].
      * apply N. exists "", r'. exact (drop_prefix_some _ _ _ E).
      * simpl in E. inversion E as [[Ec Eq]]. subst x.
        destruct m as [|y m].
        -- apply N. exists "", "". simpl.
           rewrite append_nil_r in Eq. rewrite Eq.
           now rewrite append_nil_r.
        -- simpl in D.
           destruct (Ascii.eqb_spec y c) as [->|]; [|discriminate].
           rewrite Eq, has_char_app in Hq. simpl in Hq.
           rewrite Ascii.eqb_refl in Hq. simpl in Hq.
           now rewrite orb_true_r in Hq.
    + change (String x a ++ String c q ++ b)
        with (String x (a ++ String c q ++ b)).
      cbv beta iota. rewrite IH; [reflexivity|].
      intros (pre & post & ->). apply N.
      exists (String x pre), post. reflexivity.
Qed.

(** The search returns the first delimited block. *)
Lemma pattern_search_first (pre blob rest : string) :
  ~ occurs "<action>" pre -> ~ occurs "</action>" blob ->
  pattern_search (pre ++ "<action>" ++ blob ++ "</action>" ++ rest)
  = Some blob.
Proof.
  intros Hpre Hblob. unfold pattern_search.
  rewrite (split_first_app "<" "action>" pre _ eq_refl Hpre).
  now rewrite (split_first_app "<" "/action>" blob _ eq_refl Hblob).
Qed.

(** ** The codec *)

Section DecodeFacts.

Variable literal_eval : string -> outcome pyval.

Lemma decode_unfold (text : BaseMessage + string) :
  decode literal_eval text =
  match pattern_search (text_of text) with
  | Some action_blob =>
    data <- literal_eval action_blob ;;
    name <- subscript data "action" ;;
    if eq_str name "Final Answer" then
      result <- subscript data "action_input" ;;
      Return (Some (AgentFinish result))
    else
      name' <- subscript data "action" ;;
      action_input <- subscript data "action_input" ;;
      Return (Some (FunctionCall name' (py_or action_input (PDict []))))
  | None => Return None
  end.
Proof. destruct text; reflexivity. Qed.

Lemma decode_no_match (text : BaseMessage + string) :
  pattern_search (text_of text) = None ->
  decode literal_eval text = Return None.
Proof. intros H. now rewrite decode_unfold, H. Qed.

(** What [decode] returns for a block with the required structure. *)
Lemma decode_block (text : BaseMessage + string)
      (blob : string) (data name action_input : pyval) :
  pattern_search (text_of text) = Some blob ->
  literal_eval blob = Return data ->
  subscript data "action" = Return name ->
  subscript data "action_input" = Return action_input ->
  decode literal_eval text =
  Return (Some (if eq_str name "Final Answer"
                then AgentFinish action_input
                else FunctionCall name (py_or action_input (PDict [])))).
Proof.
  intros Hs He Ha Hi. rewrite decode_unfold, Hs, He. cbn [bind].
  rewrite Ha. cbn [bind]. destruct (eq_str name "Final Answer"); cbn [bind]; now rewrite Hi.
Qed.

(** [decode] raises on a malformed block. *)
Lemma decode_malformed (text : BaseMessage + string) (blob : string) :
  pattern_search (text_of text) = Some blob ->
  malformed literal_eval blob ->
  exists e, decode literal_eval text = Raise e.
Proof.
  intros Hs [(e & He)|(data & He & Hd)]; rewrite decode_unfold, Hs, He; cbn [bind].
  - eauto.
  - unfold has_structure in Hd.
    destruct (subscript data "action") as [name|e|] eqn:Ha; cbn [bind].
    + destruct (subscript data "action_input") as [i|e|] eqn:Hi;
        [discriminate| |].
      * destruct (eq_str name "Final Answer"); cbn [bind]; eauto.
      * exfalso. clear -Hi. destruct data; simpl in Hi; try discriminate.
        destruct (dict_get kvs (PStr "action_input")); discriminate.
    + eauto.
    + exfalso. clear -Ha. destruct data; simpl in Ha; try discriminate.
      destruct (dict_get kvs (PStr "action")); discriminate.
Qed.

Lemma decode_raise_inv (text : BaseMessage + string) (e : exn) :
  decode literal_eval text = Raise e ->
  exists blob,
    pattern_search (text_of text) = Some blob /\ malformed literal_eval blob.
Proof.
  rewrite decode_unfold.
  destruct (pattern_search (text_of text)) as [blob|]; [|discriminate].
  intros H. exists blob. split; [reflexivity|].
  destruct (literal_eval blob) as [data|e'|] eqn:He; cbn [bind] in H;
    [|left; eauto|discriminate].
  right. exists data. split; [exact He|]. unfold has_structure.
  destruct (subscript data "action") as [name|e'|]; cbn [bind] in H;
    [|reflexivity|reflexivity].
  destruct (subscript data "action_input") as [i|e'|]; cbn [bind] in H;
    [|reflexivity|reflexivity].
  destruct (eq_str name "Final Answer"); discriminate.
Qed.

End DecodeFacts.

(** C2: [decode] raises exactly when a malformed delimited block is
    present. A text without the opening tag, and more generally a text
    that holds no opening tag followed by a closing tag (the search finds
    no block), decodes to [None] without raising; a
    text whose first block is malformed (the literal evaluator raises on
    it, or its value is not a mapping with both keys) makes [decode] raise;
    and [decode] raises in no other case. *)
Theorem decode_raises_iff_malformed
        (literal_eval : string -> outcome pyval)
        (text : BaseMessage + string) :
  (~ occurs "<action>" (text_of text) ->
   decode literal_eval text = Return None) /\
  (~ (exists pre blob post,
         text_of text = pre ++ "<action>" ++ blob ++ "</action>" ++ post) ->
   decode literal_eval text = Return None) /\
  (pattern_search (text_of text) = None ->
   decode literal_eval text = Return None) /\
  (forall blob,
      pattern_search (text_of text) = Some blob ->
      malformed literal_eval blob ->
      exists e, decode literal_eval text = Raise e) /\
  ((exists e, decode literal_eval text = Raise e) <->
   (exists blob,
       pattern_search (text_of text) = Some blob /\
       malformed literal_eval blob)).
Proof.
  repeat split.
  - intros N. apply decode_no_match. unfold pattern_search.
    apply split_first_none in N. now rewrite N.
  - intros N. apply decode_no_match. now apply pattern_search_none.
  - apply decode_no_match.
  - intros blob. apply decode_malformed.
  - intros (e & H). now apply decode_raise_inv in H.
  - intros (blob & Hs & Hm). now apply (decode_malformed _ _ blob).
Qed.

Lemma decode_raises_iff_malformed_witness :
  decode ast.literal_eval (inr "I should look this up first.") = Return None
  /\ exists e, decode ast.literal_eval (inr "<action>{</action>") = Raise e.
Proof.
  split.
  - apply (proj1 (decode_raises_iff_malformed
                    ast.literal_eval (inr "I should look this up first."))).
    apply split_first_none. reflexivity.
  - apply (proj1 (proj2 (proj2 (proj2 (decode_raises_iff_malformed
                                         ast.literal_eval
                                         (inr "<action>{</action>"))))) "{").
    + reflexivity.
    + left. exists SyntaxError. reflexivity.
Defined.

(** C3: the injection example decodes to the [FunctionCall] whose name is
    the string as written and whose arguments are the empty mapping; and
    for every text and evaluator, the name of a decoded [FunctionCall] is
    the value the literal evaluator returned under the key [action], a
    literal, which [decode] only moves. *)
Theorem decode_injection_is_data :
  decode ast.literal_eval (inr injection_text)
  = Return (Some (FunctionCall (PStr injection_name) (PDict [])))
  /\ forall (literal_eval : string -> outcome pyval)
            (text : BaseMessage + string) (name arguments : pyval),
      decode literal_eval text = Return (Some (FunctionCall name arguments)) ->
      exists blob data,
        pattern_search (text_of text) = Some blob /\
        literal_eval blob = Return data /\
        subscript data "action" = Return name.
Proof.
  split; [vm_compute; reflexivity|].
  intros literal_eval text name arguments. rewrite decode_unfold.
  destruct (pattern_search (text_of text)) as [blob|]; [|discriminate].
  destruct (literal_eval blob) as [data| |] eqn:He; cbn [bind];
    try discriminate.
  destruct (subscript data "action") as [n| |] eqn:Ha; cbn [bind];
    try discriminate.
  destruct (eq_str n "Final Answer").
  - destruct (subscript data "action_input"); discriminate.
  - destruct (subscript data "action_input"); cbn [bind]; try discriminate.
    intros H. inversion H; subst. exists blob, data. auto.
Qed.

Lemma decode_injection_is_data_witness :
  exists blob data,
    pattern_search injection_text = Some blob /\
    ast.literal_eval blob = Return data /\
    subscript data "action" = Return (PStr injection_name).
Proof.
  apply (proj2 decode_injection_is_data ast.literal_eval
               (inr injection_text) (PStr injection_name) (PDict [])).
  vm_compute. reflexivity.
Defined.

(** C4, as the code has it: for a block whose value has an [action] other
    than "Final Answer", [decode] returns the [FunctionCall] named by
    [action] whose arguments are [action_input], or the empty mapping when
    that value is [None], empty or otherwise false, and so never [None];
    when the subscript [data["action_input"]] raises, as it does with
    [KeyError] for a mapping without that key, [decode] raises the same
    exception. *)
Theorem decode_invoke_arguments
        (literal_eval : string -> outcome pyval)
        (text : BaseMessage + string) (blob : string) (data name : pyval) :
  pattern_search (text_of text) = Some blob ->
  literal_eval blob = Return data ->
  subscript data "action" = Return name ->
  eq_str name "Final Answer" = false ->
  (forall action_input,
      subscript data "action_input" = Return action_input ->
      exists arguments,
        decode literal_eval text = Return (Some (FunctionCall name arguments))
        /\ arguments = py_or action_input (PDict [])
        /\ arguments <> PNone
        /\ (action_input = PNone \/ action_input = PDict [] ->
            arguments = PDict [])) /\
  (forall e,
      subscript data "action_input" = Raise e ->
      decode literal_eval text = Raise e) /\
  (forall kvs,
      data = PDict kvs -> dict_get kvs (PStr "action_input") = None ->
      decode literal_eval text = Raise KeyError).
Proof.
  intros Hs He Ha Hn.
  assert (Hraise : forall e, subscript data "action_input" = Raise e ->
                             decode literal_eval text = Raise e).
  { intros e Hi. rewrite decode_unfold, Hs, He. cbn [bind].
    rewrite Ha. cbn [bind]. rewrite Hn. cbn [bind]. now rewrite Hi. }
  repeat split.
  - intros i Hi. exists (py_or i (PDict [])).
    rewrite (decode_block _ _ _ _ _ _ Hs He Ha Hi), Hn.
    repeat split.
    + unfold py_or. destruct (py_truthy i) eqn:E; [|discriminate].
      intros ->. discriminate E.
    + intros [-> | ->]; reflexivity.
  - exact Hraise.
  - intros kvs -> Hk. apply Hraise. simpl. now rewrite Hk.
Qed.

Lemma decode_invoke_arguments_witness :
  (exists arguments,
      decode ast.literal_eval
             (inr "<action>{'action': 'search', 'action_input': None}</action>")
      = Return (Some (FunctionCall (PStr "search") arguments))
      /\ arguments = py_or PNone (PDict [])
      /\ arguments <> PNone
      /\ (PNone = PNone \/ PNone = PDict [] -> arguments = PDict [])).
Proof.
  apply (proj1 (decode_invoke_arguments
                  ast.literal_eval
                  (inr "<action>{'action': 'search', 'action_input': None}</action>")
                  "{'action': 'search', 'action_input': None}"
                  (PDict [(PStr "action", PStr "search");
                          (PStr "action_input", PNone)])
                  (PStr "search")
                  eq_refl eq_refl eq_refl eq_refl)).
  reflexivity.
Defined.

(** C4, as stated, fails: a block that omits the [action_input] key is not
    decoded to a [FunctionCall] with empty arguments; [decode] raises
    [KeyError]. *)
Lemma decode_missing_action_input_raises :
  decode ast.literal_eval (inr "<action>{'action': 'search'}</action>")
  = Raise KeyError
  /\ ~ (forall text blob data name,
           pattern_search text = Some blob ->
           ast.literal_eval blob = Return data ->
           subscript data "action" = Return name ->
           eq_str name "Final Answer" = false ->
           exists arguments,
             decode ast.literal_eval (inr text)
             = Return (Some (FunctionCall name arguments))).
Proof.
  split; [vm_compute; reflexivity|].
  intros H.
  destruct (H "<action>{'action': 'search'}</action>"
              "{'action': 'search'}"
              (PDict [(PStr "action", PStr "search")]) (PStr "search")
              eq_refl eq_refl eq_refl eq_refl) as (arguments & E).
  vm_compute in E. discriminate.
Qed.

(** C10: in a block whose [action] is not "Final Answer", every false
    [action_input] value is replaced by the empty mapping in the decoded
    [FunctionCall] and every true one is passed through unchanged; the
    false values are [None], [False], [0], the empty string and the empty
    list, tuple and mapping. *)
Theorem decode_falsy_input_defaults
        (literal_eval : string -> outcome pyval)
        (text : BaseMessage + string) (blob : string)
        (data name action_input : pyval) :
  pattern_search (text_of text) = Some blob ->
  literal_eval blob = Return data ->
  subscript data "action" = Return name ->
  subscript data "action_input" = Return action_input ->
  eq_str name "Final Answer" = false ->
  (py_truthy action_input = false ->
   decode literal_eval text = Return (Some (FunctionCall name (PDict [])))) /\
  (py_truthy action_input = true ->
   decode literal_eval text = Return (Some (FunctionCall name action_input))) /\
  (py_truthy action_input = false <->
   In action_input
      [PNone; PBool false; PInt 0; PStr ""; PList []; PTuple []; PDict []]).
Proof.
  intros Hs He Ha Hi Hn.
  rewrite (decode_block _ _ _ _ _ _ Hs He Ha Hi), Hn. unfold py_or.
  repeat split.
  - now intros ->.
  - now intros ->.
  - destruct action_input as [|[]|z|s|xs|xs|kvs]; simpl; intros H;
      try discriminate; auto 10.
    + destruct (Z.eqb_spec z 0) as [->|]; [auto 10|discriminate].
    + destruct s; [auto 10|discriminate].
    + destruct xs; [auto 10|discriminate].
    + destruct xs; [auto 10|discriminate].
    + destruct kvs; [auto 10|discriminate].
  - simpl. intros H.
    repeat (destruct H as [<-|H]; [reflexivity|]). contradiction.
Qed.

Lemma decode_falsy_input_defaults_witness :
  decode ast.literal_eval
         (inr "<action>{'action': 'search', 'action_input': 0}</action>")
  = Return (Some (FunctionCall (PStr "search") (PDict [])))
  /\ decode ast.literal_eval
            (inr "<action>{'action': 'search', 'action_input': 7}</action>")
     = Return (Some (FunctionCall (PStr "search") (PInt 7))).
Proof.
  split.
  - apply (proj1 (decode_falsy_input_defaults
                    ast.literal_eval
                    (inr "<action>{'action': 'search', 'action_input': 0}</action>")
                    "{'action': 'search', 'action_input': 0}"
                    (PDict [(PStr "action", PStr "search");
                            (PStr "action_input", PInt 0)])
                    (PStr "search") (PInt 0)
                    eq_refl eq_refl eq_refl eq_refl eq_refl)).
    reflexivity.
  - apply (proj1 (proj2 (decode_falsy_input_defaults
                    ast.literal_eval
                    (inr "<action>{'action': 'search', 'action_input': 7}</action>")
                    "{'action': 'search', 'action_input': 7}"
                    (PDict [(PStr "action", PStr "search");
                            (PStr "action_input", PInt 7)])
                    (PStr "search") (PInt 7)
                    eq_refl eq_refl eq_refl eq_refl eq_refl))).
    reflexivity.
Defined.

(** C5, as the code has it: of several delimited blocks [decode] looks at
    the first one only, the first opening tag up to the nearest closing
    tag. Its result is the result for that block alone, whatever follows
    it; when that block is malformed [decode] raises, also when a later
    block is well formed. *)
Theorem decode_first_block_only
        (literal_eval : string -> outcome pyval) (pre blob rest : string) :
  ~ occurs "<action>" pre ->
  ~ occurs "</action>" blob ->
  decode literal_eval
         (inr (pre ++ "<action>" ++ blob ++ "</action>" ++ rest))
  = decode literal_eval (inr ("<action>" ++ blob ++ "</action>"))
  /\ (malformed literal_eval blob ->
      exists e,
        decode literal_eval
               (inr (pre ++ "<action>" ++ blob ++ "</action>" ++ rest))
        = Raise e).
Proof.
  intros Hpre Hblob.
  pose proof (pattern_search_first pre blob rest Hpre Hblob) as S1.
  assert (S2 : pattern_search ("<action>" ++ blob ++ "</action>") = Some blob).
  { apply (pattern_search_first "" blob ""); [|exact Hblob].
    apply split_first_none. reflexivity. }
  split.
  - rewrite !decode_unfold. unfold text_of. now rewrite S1, S2.
  - intros Hm. now apply (decode_malformed _ _ blob).
Qed.

Lemma decode_first_block_only_witness :
  decode ast.literal_eval
         (inr ("noise " ++ "<action>" ++ "{'action': 'a', 'action_input': {}}"
                 ++ "</action>" ++ "<action>{</action>"))
  = decode ast.literal_eval
           (inr ("<action>" ++ "{'action': 'a', 'action_input': {}}"
                   ++ "</action>")).
Proof.
  apply (decode_first_block_only
           ast.literal_eval "noise " "{'action': 'a', 'action_input': {}}"
           "<action>{</action>").
  - apply split_first_none. reflexivity.
  - apply split_first_none. reflexivity.
Defined.

(** C5, as stated, fails: with a malformed first block and a well-formed
    later one, [decode] raises instead of returning the later block's
    action. *)
Lemma decode_malformed_first_block_raises :
  decode ast.literal_eval
         (inr "<action>{</action><action>{'action': 'a', 'action_input': {}}</action>")
  = Raise SyntaxError
  /\ decode ast.literal_eval
            (inr "<action>{'action': 'a', 'action_input': {}}</action>")
     = Return (Some (FunctionCall (PStr "a") (PDict []))).
Proof. split; vm_compute; reflexivity. Qed.

(** ** The prompt projection *)

Lemma prompt_generator_fold (log : MessageLog) (acc : list BaseMessage) :
  fold_left
    (fun (messages : list BaseMessage) (message : MessageLike) =>
       match message with
       | Message m => (messages ++ [m])%list
       | FunctionResult result =>
         (messages ++ [SystemMessage ("Observation: " ++ py_str result)])%list
       | _ => messages
       end)
    log acc
  = (acc ++ prompt_generator log)%list.
Proof.
  unfold prompt_generator.
  match goal with |- fold_left ?f _ _ = _ => set (step := f) end.
  revert acc; induction log as [|e log IH]; intros acc; simpl.
  - now rewrite app_nil_r.
  - rewrite IH, (IH (step [] e)).
    destruct e; unfold step; simpl; try reflexivity;
      now rewrite <- app_assoc.
Qed.

(** C7: the projection maps the entries one by one and in order: the
    projection of a concatenation is the concatenation of the projections,
    a message projects to itself, a [FunctionResult] to the system message
    "Observation: " followed by its result, and a [FunctionCall] or an
    [AgentFinish] to nothing. A result of 42 gives the content
    "Observation: 42". *)
Theorem prompt_generator_pointwise :
  (forall l1 l2 : MessageLog,
      prompt_generator (l1 ++ l2)%list
      = (prompt_generator l1 ++ prompt_generator l2)%list) /\
  (forall m, prompt_generator [Message m] = [m]) /\
  (forall result,
      prompt_generator [FunctionResult result]
      = [SystemMessage ("Observation: " ++ py_str result)]) /\
  (forall name arguments, prompt_generator [FunctionCall name arguments] = []) /\
  (forall result, prompt_generator [AgentFinish result] = []) /\
  prompt_generator [FunctionResult (PInt 42)]
  = [mkMessage system "Observation: 42"].
Proof.
  repeat split.
  intros l1 l2. unfold prompt_generator at 1.
  rewrite fold_left_app. apply prompt_generator_fold.
Qed.

(** ** The agent loop *)

Section RunFacts.

Variable llm_program_invoke : nat -> MessageLog -> outcome (list MessageLike).

Lemma last_message_app (log : MessageLog) (m : MessageLike) :
  last_message (log ++ [m])%list = Return m.
Proof. unfold last_message. now rewrite rev_app_distr. Qed.

Lemma last_message_in (log : MessageLog) :
  log <> [] -> exists m, last_message log = Return m /\ In m log.
Proof.
  intros N. destruct (exists_last N) as (l & m & ->).
  exists m. split; [apply last_message_app|].
  apply in_or_app. right. now left.
Qed.

(** The loop never invokes the program more often than its budget. *)
Lemma run_loop_bound (budget : nat) (log : MessageLog) (calls : nat) :
  invocations (run_loop llm_program_invoke budget log calls)
  <= calls + budget.
Proof.
  revert log calls; induction budget as [|budget IH]; intros log calls;
    simpl.
  - lia.
  - destruct (last_message log) as [last| |]; simpl; try lia.
    destruct (is_finish last); simpl; try lia.
    destruct (llm_program_invoke calls log); simpl; try lia.
    specialize (IH (add_messages log a) (S calls)). lia.
Qed.

(** With a program that always returns entries and never a finish, the
    loop uses its whole budget. *)
Lemma run_loop_exhausts (budget : nat) :
  (forall calls log,
      exists messages,
        llm_program_invoke calls log = Return messages /\
        no_finish messages) ->
  forall (log : MessageLog) (calls : nat),
    log <> [] -> no_finish log ->
    let r := run_loop llm_program_invoke budget log calls in
    ending r = Return tt /\
    invocations r = calls + budget /\
    no_finish (final_log r) /\
    exists appended, final_log r = (log ++ appended)%list.
Proof.
  intros Hllm. induction budget as [|budget IH]; intros log calls Hne Hnf;
    simpl.
  - repeat split; auto. exists []. now rewrite app_nil_r.
  - destruct (last_message_in log Hne) as (last & -> & Hin).
    unfold no_finish in Hnf. rewrite Forall_forall in Hnf.
    rewrite (Hnf last Hin).
    destruct (Hllm calls log) as (messages & -> & Hm).
    destruct (IH (add_messages log messages) (S calls))
      as (He & Hi & Hf & appended & Ha).
    + unfold add_messages. destruct log; [contradiction|discriminate].
    + unfold add_messages, no_finish. apply Forall_app. split; [|exact Hm].
      now apply Forall_forall.
    + repeat split; auto; [lia|].
      exists (messages ++ appended)%list.
      rewrite Ha. unfold add_messages. now rewrite app_assoc.
Qed.

End RunFacts.

(** C6: [run] on an empty message log raises the assertion error at once:
    the program has not been invoked and the log is still empty. *)
Theorem run_empty_log_raises
        (llm_program_invoke : nat -> MessageLog -> outcome (list MessageLike))
        (max_iterations : Z) :
  run llm_program_invoke max_iterations []
  = mkRun (Raise AssertionError) [] 0.
Proof. reflexivity. Qed.

(** C8: [run] never invokes the program more than [max_iterations] times.
    With a program that returns entries on every call and never an
    [AgentFinish], on a non-empty log without [AgentFinish], [run] returns
    normally after exactly [max_iterations] invocations (3 for a budget of
    3); the final log is the initial one followed by the appended entries
    and holds no [AgentFinish]. *)
Theorem run_exhausts_budget :
  (forall llm_program_invoke max_iterations message_log,
      (Z.of_nat (invocations (run llm_program_invoke max_iterations message_log))
       <= Z.max 0 max_iterations)%Z) /\
  (forall llm_program_invoke message_log,
      message_log <> [] ->
      no_finish message_log ->
      (forall calls log,
          exists messages,
            llm_program_invoke calls log = Return messages /\
            no_finish messages) ->
      (forall max_iterations,
          let r := run llm_program_invoke max_iterations message_log in
          ending r = Return tt /\
          invocations r = Z.to_nat max_iterations /\
          no_finish (final_log r) /\
          exists appended, final_log r = (message_log ++ appended)%list) /\
      invocations (run llm_program_invoke 3 message_log) = 3).
Proof.
  split.
  - intros llm max_iterations [|m log]; simpl; [lia|].
    pose proof (run_loop_bound llm (Z.to_nat max_iterations) (m :: log) 0).
    lia.
  - intros llm log Hne Hnf Hllm.
    assert (G : forall max_iterations,
               let r := run llm max_iterations log in
               ending r = Return tt /\
               invocations r = Z.to_nat max_iterations /\
               no_finish (final_log r) /\
               exists appended, final_log r = (log ++ appended)%list).
    { intros max_iterations. destruct log as [|m log]; [contradiction|].
      apply (run_loop_exhausts llm (Z.to_nat max_iterations) Hllm
                               (m :: log) 0 Hne Hnf). }
    split; [exact G|]. now destruct (G 3%Z) as (_ & -> & _).
Qed.

Lemma run_exhausts_budget_witness :
  invocations
    (run (fun _ _ => Return [Message (AIMessage "Let me think.")]) 3
         [Message (HumanMessage "What is the weather?")])
  = 3.
Proof.
  apply (proj2 run_exhausts_budget
               (fun _ _ => Return [Message (AIMessage "Let me think.")])
               [Message (HumanMessage "What is the weather?")]).
  - discriminate.
  - repeat constructor.
  - intros calls log. eexists. split; [reflexivity|]. repeat constructor.
Defined.

(** C9: on a log seeded with one message, when the model's first answer
    decodes to an [AgentFinish], [run] (with a budget of at least one
    iteration) invokes the program exactly once, appends the model's
    message and then the [AgentFinish], and stops. *)
Theorem run_stops_on_final_answer
        (literal_eval : string -> outcome pyval)
        (llm : nat -> MessageLog -> outcome string)
        (tools : pyval -> pyval -> pyval)
        (seed : BaseMessage) (text : string) (result : pyval)
        (max_iterations : Z) :
  llm 0 [Message seed] = Return text ->
  decode literal_eval (inr text) = Return (Some (AgentFinish result)) ->
  (1 <= max_iterations)%Z ->
  run (create_llm_program literal_eval llm tools) max_iterations [Message seed]
  = mkRun (Return tt)
          [Message seed; Message (AIMessage text); AgentFinish result]
          1.
Proof.
  intros Hllm Hdec Hmax. unfold run.
  destruct (Z.to_nat max_iterations) as [|budget] eqn:E; [lia|].
  cbn [run_loop]. change (last_message [Message seed]) with (Return (Message seed)).
  cbn [is_finish]. unfold create_llm_program at 1.
  rewrite Hllm. cbn [bind]. rewrite Hdec. cbn [bind].
  unfold add_messages. cbn [app].
  destruct budget as [|budget]; reflexivity.
Qed.

Lemma run_stops_on_final_answer_witness :
  run (create_llm_program
         ast.literal_eval
         (fun _ _ => Return (encode_as_str (PStr "Final Answer") (PStr "Sunny")))
         (fun _ _ => PNone))
      10 [Message (HumanMessage "What is the weather?")]
  = mkRun (Return tt)
          [Message (HumanMessage "What is the weather?");
           Message (AIMessage (encode_as_str (PStr "Final Answer") (PStr "Sunny")));
           AgentFinish (PStr "Sunny")]
          1.
Proof.
  apply (run_stops_on_final_answer
           ast.literal_eval
           (fun _ _ => Return (encode_as_str (PStr "Final Answer") (PStr "Sunny")))
           (fun _ _ => PNone)
           (HumanMessage "What is the weather?")
           (encode_as_str (PStr "Final Answer") (PStr "Sunny"))
           (PStr "Sunny") 10).
  - reflexivity.
  - vm_compute. reflexivity.
  - lia.
Defined.

(** ** The literal evaluator on what [repr] writes *)

(** *** Integers *)

Ltac digit_cases d H :=
  let E := fresh "E" in
  assert (E : (d = 0 \/ d = 1 \/ d = 2 \/ d = 3 \/ d = 4 \/ d = 5 \/ d = 6
               \/ d = 7 \/ d = 8 \/ d = 9)%Z) by lia;
  repeat (destruct E as [E|E]); subst d.

Lemma digit_char_spec (d : Z) :
  (0 <= d < 10)%Z ->
  ast.is_digit (digit_char d) = true /\ ast.digit_val (digit_char d) = d.
Proof. intros H. digit_cases d H; split; reflexivity. Qed.

Lemma digit_char_head (d : Z) :
  (0 <= d < 10)%Z ->
  (digit_char d =? " ")%char = false /\
  (digit_char d =? "]")%char = false /\
  (digit_char d =? "}")%char = false /\
  (digit_char d =? "'")%char = false /\
  (digit_char d =? dquote)%char = false /\
  (digit_char d =? "[")%char = false /\
  (digit_char d =? "{")%char = false /\
  (digit_char d =? "-")%char = false.
Proof. intros H. digit_cases d H; repeat split; reflexivity. Qed.

Lemma digit_char_nonzero (d : Z) :
  (0 < d < 10)%Z -> (digit_char d =? "0")%char = false.
Proof. intros H. digit_cases d H; try reflexivity; lia. Qed.

Lemma dec_digits_app (fuel : nat) (n : Z) (acc rest : string) :
  dec_digits fuel n acc ++ rest = dec_digits fuel n (acc ++ rest).
Proof.
  revert n acc; induction fuel as [|fuel IH]; intros n acc; simpl.
  - reflexivity.
  - destruct (n / 10 =? 0)%Z; [reflexivity|]. now rewrite IH.
Qed.

(** The digits written for [n] start with a digit; with a non-zero one
    when [n] is positive. *)
Lemma dec_digits_head (fuel : nat) (n : Z) (acc : string) :
  (0 <= n < 2 ^ (Z.of_nat fuel + 1))%Z ->
  exists d t,
    dec_digits fuel n acc = String (digit_char d) t /\
    (0 <= d < 10)%Z /\ (0 < n -> 0 < d)%Z.
Proof.
  revert n acc; induction fuel as [|fuel IH]; intros n acc Hn.
  - simpl. exists (n mod 10)%Z, acc. split; [reflexivity|].
    change (2 ^ (Z.of_nat 0 + 1))%Z with 2%Z in Hn.
    split; [apply Z.mod_pos_bound; lia|].
    intros Hp. rewrite Z.mod_small; lia.
  - simpl. destruct (Z.eqb_spec (n / 10) 0) as [E|E].
    + exists (n mod 10)%Z, acc. split; [reflexivity|].
      split; [apply Z.mod_pos_bound; lia|].
      intros Hp. pose proof (Z.div_mod n 10). lia.
    + assert (Hq : (0 <= n / 10 < 2 ^ (Z.of_nat fuel + 1))%Z).
      { split; [apply Z.div_pos; lia|].
        apply Z.div_lt_upper_bound; [lia|].
        replace (Z.of_nat (S fuel) + 1)%Z with (Z.succ (Z.of_nat fuel + 1))%Z
          in Hn by lia.
        rewrite Z.pow_succ_r in Hn by lia. lia. }
      destruct (IH (n / 10)%Z (String (digit_char (n mod 10)) acc) Hq)
        as (d & t & -> & Hd & Hp).
      exists d, t. split; [reflexivity|]. split; [exact Hd|].
      intros _. apply Hp. lia.
Qed.

(** Reading back the digits written for [n] gives [n]. *)
Lemma scan_dec_digits (fuel : nat) (n : Z) (acc : string) :
  (0 <= n < 2 ^ (Z.of_nat fuel + 1))%Z ->
  ast.scan_digits 0 (dec_digits fuel n acc) = ast.scan_digits n acc.
Proof.
  revert n acc; induction fuel as [|fuel IH]; intros n acc Hn.
  - simpl. change (2 ^ (Z.of_nat 0 + 1))%Z with 2%Z in Hn.
    rewrite Z.mod_small by lia.
    destruct (digit_char_spec n) as [-> ->]; [lia|]. reflexivity.
  - simpl. destruct (Z.eqb_spec (n / 10) 0) as [E|E].
    + simpl. assert (Hs : (n mod 10 = n)%Z)
        by (pose proof (Z.div_mod n 10); lia).
      rewrite Hs.
      destruct (digit_char_spec n) as [-> ->];
        [pose proof (Z.mod_pos_bound n 10); lia|]. reflexivity.
    + rewrite IH.
      * simpl.
        destruct (digit_char_spec (n mod 10)) as [-> ->];
          [apply Z.mod_pos_bound; lia|].
        f_equal. pose proof (Z.div_mod n 10). lia.
      * split; [apply Z.div_pos; lia|].
        apply Z.div_lt_upper_bound; [lia|].
        replace (Z.of_nat (S fuel) + 1)%Z with (Z.succ (Z.of_nat fuel + 1))%Z
          in Hn by lia.
        rewrite Z.pow_succ_r in Hn by lia. lia.
Qed.

Lemma log2_fuel (n : Z) :
  (0 <= n)%Z -> (0 <= n < 2 ^ (Z.of_nat (Z.to_nat (Z.log2 n)) + 1))%Z.
Proof.
  intros H. split; [exact H|].
  rewrite Z2Nat.id by apply Z.log2_nonneg.
  destruct (Z.eq_dec n 0) as [->|N]; [reflexivity|].
  pose proof (Z.log2_spec n). rewrite <- Z.add_1_r in *. lia.
Qed.

Lemma scan_digits_stop (n : Z) (rest : string) :
  follow_ok rest = true -> ast.scan_digits n rest = (n, rest).
Proof.
  destruct rest as [|c rest]; [reflexivity|].
  unfold follow_ok, ast.token_goes_on. simpl. intros H.
  replace (ast.is_digit c) with false; [reflexivity|].
  destruct (ast.is_digit c) eqn:D; [|reflexivity].
  apply negb_true_iff, orb_false_iff in H as [H _].
  unfold ast.is_digit in D. unfold ast.is_ident_char in H.
  rewrite D in H. discriminate.
Qed.

Lemma scan_number_repr (n : Z) (rest : string) :
  (0 <= n)%Z -> follow_ok rest = true ->
  ast.scan_number (dec_digits (Z.to_nat (Z.log2 n)) n "" ++ rest)
  = Return (n, rest).
Proof.
  intros Hn Hf. unfold ast.scan_number.
  rewrite dec_digits_app. simpl "++".
  rewrite scan_dec_digits by now apply log2_fuel.
  rewrite scan_digits_stop by exact Hf.
  replace (ast.leading_zero _) with false.
  - unfold follow_ok in Hf. apply negb_true_iff in Hf. now rewrite Hf.
  - symmetry.
    destruct (Z.eq_dec n 0) as [->|N].
    + simpl. destruct rest as [|c rest]; [reflexivity|]. simpl.
      unfold follow_ok, ast.token_goes_on in Hf. simpl in Hf.
      apply negb_true_iff, orb_false_iff in Hf as [Hf _].
      unfold ast.is_digit. unfold ast.is_ident_char in Hf.
      destruct ((48 <=? N_of_ascii c)%N && (N_of_ascii c <=? 57)%N);
        [discriminate|reflexivity].
    + destruct (dec_digits_head (Z.to_nat (Z.log2 n)) n rest
                                (log2_fuel n Hn))
        as (d & t & -> & Hd & Hp).
      unfold ast.leading_zero.
      rewrite digit_char_nonzero by lia.
      destruct t; reflexivity.
Qed.

(** *** Strings *)

Ltac each_char c := destruct c as [[] [] [] [] [] [] [] []].

(** Reading back one character as [repr] writes it. *)
Lemma scan_repr_char (q c : ascii) (tail : string) :
  q = "'"%char \/ q = dquote ->
  ast.scan_string q (repr_char q c ++ tail)
  = ('(body, rest) <- ast.scan_string q tail ;; Return (String c body, rest)).
Proof.
  intros [-> | ->]; each_char c; reflexivity.
Qed.

Lemma scan_repr_chars (q : ascii) (s rest : string) :
  q = "'"%char \/ q = dquote ->
  ast.scan_string q (repr_chars q s ++ String q rest) = Return (s, rest).
Proof.
  intros Hq. induction s as [|c s IH].
  - simpl. now rewrite Ascii.eqb_refl.
  - cbn [repr_chars]. rewrite append_assoc, scan_repr_char by exact Hq.
    now rewrite IH.
Qed.

Lemma repr_quote_cases (s : string) :
  repr_quote s = "'"%char \/ repr_quote s = dquote.
Proof. unfold repr_quote. destruct (_ && _); auto. Qed.

Lemma plain_char_repr (c : ascii) :
  plain_char c = true ->
  repr_char "'" c = String c "" /\ (c =? "'")%char = false.
Proof.
  each_char c; vm_compute; intros H;
    first [discriminate H | split; reflexivity].
Qed.

(** A plain text is written by [repr] as it is, in single quotes. *)
Lemma plain_text_repr (s : string) :
  plain_text s = true -> repr_str s = String "'" (s ++ "'").
Proof.
  intros H.
  assert (Hc : repr_chars "'" s = s /\ has_char "'" s = false).
  { induction s as [|c s IH]; [split; reflexivity|].
    cbn [plain_text] in H. apply andb_true_iff in H as [Hc Hs].
    destruct (IH Hs) as [E1 E2].
    destruct (plain_char_repr c Hc) as [R N].
    cbn [repr_chars has_char]. rewrite R, E1, E2, N. split; reflexivity. }
  destruct Hc as [E1 E2]. unfold repr_str, repr_quote.
  rewrite E2. cbn [andb]. now rewrite E1.
Qed.

(** *** Values *)

(** [repr] never starts with a space or a closing bracket. *)
Lemma repr_head (v : pyval) :
  exists c t,
    py_repr v = String c t /\
    (c =? " ")%char = false /\
    (c =? "]")%char = false /\
    (c =? "}")%char = false.
Proof.
  destruct v as [|[]|z|s|xs|xs|kvs]; simpl;
    try (eexists; eexists; repeat split; reflexivity).
  - unfold repr_int. destruct (z <? 0)%Z eqn:E.
    + eexists; eexists; repeat split; reflexivity.
    + apply Z.ltb_ge in E.
      destruct (dec_digits_head (Z.to_nat (Z.log2 z)) z "" (log2_fuel z E))
        as (d & t & -> & Hd & _).
      destruct (digit_char_head d Hd) as (H1 & H2 & H3 & _).
      exists (digit_char d), t. auto.
  - unfold repr_str.
    destruct (repr_quote_cases s) as [-> | ->];
      eexists; eexists; repeat split; reflexivity.
  - destruct xs as [|x [|y l]];
      eexists; eexists; repeat split; reflexivity.
Qed.

Lemma skip_spaces_repr (v : pyval) (t : string) :
  ast.skip_spaces (py_repr v ++ t) = py_repr v ++ t.
Proof.
  destruct (repr_head v) as (c & u & -> & H & _). simpl. now rewrite H.
Qed.

Lemma parse_items_step (fuel : nat) (s : string) :
  ast.skip_spaces s = s ->
  (exists c t, s = String c t /\ (c =? "]")%char = false) ->
  ast.parse_items (S fuel) s
  = ('(v, r1) <- ast.parse_value fuel s ;;
     match ast.skip_spaces r1 with
     | EmptyString => Raise SyntaxError
     | String d r2 =>
       if (d =? ",")%char then
         '(vs, r3) <- ast.parse_items fuel r2 ;; Return (v :: vs, r3)
       else if (d =? "]")%char then Return ([v], r2)
       else Unknown
     end).
Proof.
  intros Hs (c & t & -> & Hc). cbn [ast.parse_items]. now rewrite Hs, Hc.
Qed.

Lemma parse_pairs_step (fuel : nat) (s : string) :
  ast.skip_spaces s = s ->
  (exists c t, s = String c t /\ (c =? "}")%char = false) ->
  ast.parse_pairs (S fuel) s
  = ('(k, r1) <- ast.parse_value fuel s ;;
     match ast.skip_spaces r1 with
     | EmptyString => Raise SyntaxError
     | String d r2 =>
       if (d =? ":")%char then
         '(v, r3) <- ast.parse_value fuel (ast.skip_spaces r2) ;;
         match ast.skip_spaces r3 with
         | EmptyString => Raise SyntaxError
         | String e r4 =>
           if (e =? ",")%char then
             '(kvs, r5) <- ast.parse_pairs fuel r4 ;;
             Return ((k, v) :: kvs, r5)
           else if (e =? "}")%char then Return ([(k, v)], r4)
           else Unknown
         end
       else Unknown
     end).
Proof.
  intros Hs (c & t & -> & Hc). cbn [ast.parse_pairs]. now rewrite Hs, Hc.
Qed.

Lemma parse_items_space (fuel : nat) (s : string) :
  ast.parse_items fuel (String " " s) = ast.parse_items fuel s.
Proof. destruct fuel; reflexivity. Qed.

Lemma parse_pairs_space (fuel : nat) (s : string) :
  ast.parse_pairs fuel (String " " s) = ast.parse_pairs fuel s.
Proof. destruct fuel; reflexivity. Qed.

Lemma repr_not_rbracket (v : pyval) (t : string) :
  exists c u, py_repr v ++ t = String c u /\ (c =? "]")%char = false.
Proof.
  destruct (repr_head v) as (c & u & E & _ & H & _).
  exists c, (u ++ t). now rewrite E.
Qed.

Lemma repr_not_rbrace (v : pyval) (t : string) :
  exists c u, py_repr v ++ t = String c u /\ (c =? "}")%char = false.
Proof.
  destruct (repr_head v) as (c & u & E & _ & _ & H).
  exists c, (u ++ t). now rewrite E.
Qed.

Lemma reads_back_items (xs : list pyval) :
  Forall reads_back xs ->
  forallb json_safe xs = true ->
  forall (fuel : nat) (rest : string),
    1 + String.length (join_items (map py_repr xs)) <= fuel ->
    ast.parse_items fuel (join_items (map py_repr xs) ++ String "]" rest)
    = Return (xs, rest).
Proof.
  induction 1 as [|x xs Hx Hxs IH]; intros Hsafe fuel rest Hfuel.
  - destruct fuel; [simpl in Hfuel; lia|]. reflexivity.
  - cbn [forallb] in Hsafe. apply andb_true_iff in Hsafe as [Sx Sxs].
    destruct fuel as [|fuel]; [lia|].
    destruct xs as [|y l].
    + cbn [map join_items] in *.
      rewrite parse_items_step;
        [|apply skip_spaces_repr|apply repr_not_rbracket].
      rewrite (Hx Sx); [reflexivity|lia|reflexivity].
    + change (join_items (map py_repr (x :: y :: l)))
        with (py_repr x ++ ", " ++ join_items (map py_repr (y :: l))) in *.
      rewrite !length_append in Hfuel.
      change (String.length ", ") with 2 in Hfuel.
      rewrite !append_assoc.
      rewrite parse_items_step;
        [|apply skip_spaces_repr|apply repr_not_rbracket].
      rewrite (Hx Sx); [|lia|reflexivity].
      cbn [bind append ast.skip_spaces Ascii.eqb Bool.eqb].
      rewrite parse_items_space.
      rewrite (IH Sxs); [reflexivity|lia].
Qed.

Lemma reads_back_pairs (kvs : list (pyval * pyval)) :
  Forall (fun kv => reads_back (fst kv) /\ reads_back (snd kv)) kvs ->
  forallb (fun kv => is_str (fst kv) && json_safe (snd kv)) kvs = true ->
  forall (fuel : nat) (rest : string),
    1 + String.length
          (join_items
             (map (fun kv => py_repr (fst kv) ++ ": " ++ py_repr (snd kv)) kvs))
    <= fuel ->
    ast.parse_pairs
      fuel
      (join_items
         (map (fun kv => py_repr (fst kv) ++ ": " ++ py_repr (snd kv)) kvs)
         ++ String "}" rest)
    = Return (kvs, rest).
Proof.
  induction 1 as [|[k v] kvs [Hk Hv] Hkvs IH]; intros Hsafe fuel rest Hfuel.
  - destruct fuel; [simpl in Hfuel; lia|]. reflexivity.
  - cbn [forallb fst snd] in Hsafe.
    apply andb_true_iff in Hsafe as [Skv Skvs].
    apply andb_true_iff in Skv as [Sk Sv].
    assert (Sk' : json_safe k = true) by (destruct k; try discriminate; reflexivity).
    cbn [fst snd] in Hk, Hv.
    destruct fuel as [|fuel]; [lia|].
    destruct kvs as [|kv l].
    + cbn [map join_items fst snd] in *.
      rewrite !length_append in Hfuel.
      rewrite !append_assoc.
      rewrite parse_pairs_step;
        [|apply skip_spaces_repr|apply repr_not_rbrace].
      rewrite (Hk Sk'); [|lia|reflexivity].
      cbn [bind append ast.skip_spaces Ascii.eqb Bool.eqb].
      rewrite skip_spaces_repr.
      rewrite (Hv Sv); [reflexivity|lia|reflexivity].
    + set (item := fun kv : pyval * pyval =>
                     py_repr (fst kv) ++ ": " ++ py_repr (snd kv)) in *.
      change (join_items (map item ((k, v) :: kv :: l)))
        with ((py_repr k ++ ": " ++ py_repr v) ++ ", "
                ++ join_items (map item (kv :: l))) in *.
      rewrite !length_append in Hfuel.
      change (String.length ", ") with 2 in Hfuel.
      change (String.length ": ") with 2 in Hfuel.
      rewrite !append_assoc.
      rewrite parse_pairs_step;
        [|apply skip_spaces_repr|apply repr_not_rbrace].
      rewrite (Hk Sk'); [|lia|reflexivity].
      cbn [bind append ast.skip_spaces Ascii.eqb Bool.eqb].
      rewrite skip_spaces_repr.
      rewrite (Hv Sv); [|lia|reflexivity].
      cbn [bind append ast.skip_spaces Ascii.eqb Bool.eqb].
      rewrite parse_pairs_space.
      rewrite (IH Skvs); [reflexivity|lia].
Qed.

Lemma parse_value_digits (fuel : nat) (s : string) :
  (exists d t, s = String (digit_char d) t /\ (0 <= d < 10)%Z) ->
  ast.parse_value (S fuel) s
  = ('(n, rest) <- ast.scan_number s ;; Return (PInt n, rest)).
Proof.
  intros (d & t & -> & Hd).
  destruct (digit_char_head d Hd) as (_ & _ & _ & H1 & H2 & H3 & H4 & H5).
  destruct (digit_char_spec d Hd) as [H6 _].
  cbn [ast.parse_value]. now rewrite H1, H2, H3, H4, H5, H6.
Qed.

Lemma parse_value_minus (fuel : nat) (s : string) :
  (exists d t, s = String (digit_char d) t /\ (0 <= d < 10)%Z) ->
  ast.parse_value (S fuel) (String "-" s)
  = ('(n, rest) <- ast.scan_number s ;; Return (PInt (- n), rest)).
Proof.
  intros (d & t & -> & Hd).
  destruct (digit_char_head d Hd) as (H0 & _).
  destruct (digit_char_spec d Hd) as [H6 _].
  cbn [ast.parse_value ast.skip_spaces Ascii.eqb Bool.eqb orb].
  change (dquote) with (Ascii false true false false false true false false).
  cbn [Ascii.eqb Bool.eqb orb andb].
  now rewrite H0, H6.
Qed.

Lemma dec_digits_app_head (n : Z) (rest : string) :
  (0 <= n)%Z ->
  exists d t,
    dec_digits (Z.to_nat (Z.log2 n)) n "" ++ rest = String (digit_char d) t
    /\ (0 <= d < 10)%Z.
Proof.
  intros Hn.
  destruct (dec_digits_head (Z.to_nat (Z.log2 n)) n "" (log2_fuel n Hn))
    as (d & t & -> & Hd & _).
  exists d, (t ++ rest). auto.
Qed.

(** The parser reads every JSON-safe value back from its [repr]. *)
Lemma reads_back_all (v : pyval) : reads_back v.
Proof.
  induction v using pyval_ind; intros Hsafe fuel rest Hlen Hf.
  - destruct fuel; [simpl in Hlen; lia|]. simpl.
    unfold ast.scan_keyword. simpl.
    unfold follow_ok in Hf. apply negb_true_iff in Hf. now rewrite Hf.
  - destruct fuel; [destruct b; simpl in Hlen; lia|].
    unfold follow_ok in Hf. apply negb_true_iff in Hf.
    destruct b; simpl; unfold ast.scan_keyword; simpl; now rewrite Hf.
  - cbn [py_repr] in *. unfold repr_int in *.
    destruct (z <? 0)%Z eqn:E;
      (destruct fuel as [|fuel];
       [exfalso; try (simpl in Hlen; lia);
        apply Z.ltb_ge in E;
        destruct (dec_digits_app_head z "" E) as (d & t & Hd & _);
        rewrite append_nil_r in Hd; rewrite Hd in Hlen; simpl in Hlen; lia|]).
    + apply Z.ltb_lt in E. cbn [append].
      rewrite parse_value_minus by (apply dec_digits_app_head; lia).
      rewrite scan_number_repr by (lia || exact Hf).
      cbn [bind]. now rewrite Z.opp_involutive.
    + apply Z.ltb_ge in E.
      rewrite parse_value_digits by (apply dec_digits_app_head; lia).
      now rewrite scan_number_repr by (lia || exact Hf).
  - cbn [py_repr] in *. unfold repr_str in *.
    destruct fuel; [simpl in Hlen; lia|].
    cbn [append]. rewrite append_assoc. cbn [append].
    destruct (repr_quote_cases s) as [Q|Q]; rewrite Q.
    + cbn [ast.parse_value Ascii.eqb Bool.eqb orb].
      now rewrite scan_repr_chars by auto.
    + change dquote with (Ascii false true false false false true false false).
      cbn [ast.parse_value Ascii.eqb Bool.eqb orb].
      change (Ascii false true false false false true false false) with dquote.
      now rewrite scan_repr_chars by auto.
  - cbn [py_repr json_safe] in *.
    destruct fuel; [simpl in Hlen; lia|].
    cbn [append]. rewrite append_assoc. cbn [append].
    cbn [ast.parse_value Ascii.eqb Bool.eqb orb].
    change dquote with (Ascii false true false false false true false false).
    cbn [Ascii.eqb Bool.eqb orb].
    rewrite reads_back_items; [reflexivity|assumption|assumption|].
    cbn [append String.length] in Hlen. rewrite length_append in Hlen.
    simpl in Hlen. lia.
  - discriminate.
  - cbn [py_repr json_safe] in *.
    apply andb_true_iff in Hsafe as [_ Hsafe].
    destruct fuel; [simpl in Hlen; lia|].
    cbn [append]. rewrite append_assoc. cbn [append].
    cbn [ast.parse_value Ascii.eqb Bool.eqb orb].
    change dquote with (Ascii false true false false false true false false).
    cbn [Ascii.eqb Bool.eqb orb].
    rewrite reads_back_pairs; [reflexivity|assumption|assumption|].
    rewrite !length_append in Hlen.
    change (String.length "{") with 1 in Hlen.
    change (String.length "}") with 1 in Hlen. lia.
Qed.

(** *** Evaluation of the syntax tree *)

Lemma dict_set_fresh (acc : list (pyval * pyval)) (k x : pyval) :
  Forall (fun kv => key_eq (fst kv) k = false) acc ->
  dict_set acc k x = (acc ++ [(k, x)])%list.
Proof.
  induction 1 as [|[k0 x0] acc H0 _ IH]; simpl; [reflexivity|].
  simpl in H0. now rewrite H0, IH.
Qed.

Lemma distinct_keys_earlier (a : list pyval) (k : pyval) (b : list pyval) :
  distinct_keys (a ++ k :: b)%list = true ->
  Forall (fun k0 => key_eq k0 k = false) a.
Proof.
  induction a as [|k0 a IH]; simpl; intros H; [constructor|].
  apply andb_true_iff in H as [H1 H2].
  constructor; [|now apply IH].
  rewrite forallb_app in H1. apply andb_true_iff in H1 as [_ H1].
  simpl in H1. apply andb_true_iff in H1 as [H1 _].
  now apply negb_true_iff in H1.
Qed.

(** A JSON-safe tree evaluates to itself: the keys of its mappings are
    distinct strings, so no entry replaces another. *)
Lemma convert_json_safe (v : pyval) :
  json_safe v = true -> ast.convert v = Return v.
Proof.
  induction v using pyval_ind; intros Hsafe; try reflexivity.
  - cbn [ast.convert json_safe] in *.
    match goal with
    | |- bind (?f xs) _ = _ => assert (E : f xs = Return xs)
    end.
    { induction H as [|x xs Hx Hxs IH]; [reflexivity|].
      cbn [forallb] in Hsafe. apply andb_true_iff in Hsafe as [Sx Sxs].
      rewrite (Hx Sx). cbn [bind]. now rewrite (IH Sxs). }
    now rewrite E.
  - cbn [ast.convert json_safe] in *.
    apply andb_true_iff in Hsafe as [Hd Hs].
    match goal with
    | |- bind (?f kvs []) _ = _ =>
      assert (E : forall acc,
                 distinct_keys (map fst (acc ++ kvs)%list) = true ->
                 f kvs acc = Return (acc ++ kvs)%list)
    end.
    { clear Hd. induction H as [|[k x] kvs [Hk Hx] Hkvs IH]; intros acc Hd.
      - now rewrite app_nil_r.
      - cbn [forallb fst snd] in Hs.
        apply andb_true_iff in Hs as [Skx Skvs].
        apply andb_true_iff in Skx as [Sk Sx].
        cbn [fst snd] in Hk, Hx.
        destruct k as [| | |s| | |]; try discriminate Sk.
        rewrite (Hx Sx). cbn [ast.convert bind hashable].
        rewrite map_app in Hd. cbn [map fst] in Hd.
        rewrite dict_set_fresh.
        + rewrite IH; [now rewrite <- app_assoc|exact Skvs|].
          rewrite <- app_assoc, map_app. exact Hd.
        + apply distinct_keys_earlier in Hd.
          rewrite Forall_map in Hd. exact Hd. }
    now rewrite (E [] Hd).
Qed.

(** [ast.literal_eval(repr(v))] is [v] for every JSON-safe value. *)
Lemma literal_eval_repr (v : pyval) :
  json_safe v = true -> ast.literal_eval (py_repr v) = Return v.
Proof.
  intros Hsafe. unfold ast.literal_eval.
  rewrite <- (append_nil_r (py_repr v)) at 2.
  rewrite (reads_back_all v Hsafe); [|lia|reflexivity].
  cbn [bind ast.skip_spaces]. now apply convert_json_safe.
Qed.

(** *** The encoded text *)

Lemma encode_as_str_tags (name arguments : pyval) :
  encode_as_str name arguments
  = "<action>" ++ action_body name arguments ++ "</action>".
Proof.
  unfold encode_as_str, action_body.
  destruct (eq_str name "Final Answer"); rewrite !append_assoc; reflexivity.
Qed.

Lemma action_body_invoke (n : string) (arguments : pyval) :
  plain_text n = true ->
  eq_str (PStr n) "Final Answer" = false ->
  is_str arguments = false ->
  action_body (PStr n) arguments
  = py_repr (PDict [(PStr "action", PStr n);
                    (PStr "action_input", arguments)]).
Proof.
  intros Hn Hfa Hs. unfold action_body. rewrite Hfa.
  replace (py_str arguments) with (py_repr arguments)
    by (destruct arguments; try reflexivity; discriminate).
  cbn [py_repr map join_items fst snd py_str].
  rewrite (plain_text_repr n Hn).
  change (repr_str "action") with "'action'".
  change (repr_str "action_input") with "'action_input'".
  rewrite !append_assoc. cbn [append]. rewrite !append_assoc. reflexivity.
Qed.

Lemma action_body_finish (result : pyval) :
  plain_text (py_str result) = true ->
  action_body (PStr "Final Answer") result
  = py_repr (PDict [(PStr "action", PStr "Final Answer");
                    (PStr "action_input", PStr (py_str result))]).
Proof.
  intros Hr. unfold action_body.
  change (eq_str (PStr "Final Answer") "Final Answer") with true.
  cbn [py_repr map join_items fst snd].
  rewrite (plain_text_repr _ Hr).
  change (repr_str "action") with "'action'".
  change (repr_str "action_input") with "'action_input'".
  change (repr_str "Final Answer") with "'Final Answer'".
  rewrite !append_assoc. cbn [append]. rewrite !append_assoc. reflexivity.
Qed.

(** [decode] of an encoded text whose body is the [repr] of a two-key
    mapping. *)
Lemma decode_encoded_body (name arguments action action_input : pyval) :
  action_body name arguments
  = py_repr (PDict [(PStr "action", action);
                    (PStr "action_input", action_input)]) ->
  json_safe action = true ->
  json_safe action_input = true ->
  ~ occurs "</action>" (action_body name arguments) ->
  decode ast.literal_eval (inr (encode_as_str name arguments))
  = Return (Some (if eq_str action "Final Answer"
                  then AgentFinish action_input
                  else FunctionCall action (py_or action_input (PDict [])))).
Proof.
  intros Hbody Ha Hi Hocc.
  apply (decode_block ast.literal_eval _ (action_body name arguments)
                      (PDict [(PStr "action", action);
                              (PStr "action_input", action_input)])).
  - unfold text_of. rewrite encode_as_str_tags.
    apply (pattern_search_first "" _ ""); [|exact Hocc].
    apply split_first_none. reflexivity.
  - rewrite Hbody. apply literal_eval_repr.
    cbn [json_safe map fst snd forallb is_str andb]. rewrite Ha, Hi.
    reflexivity.
  - reflexivity.
  - reflexivity.
Qed.

(** C1, as the code has it. For an [Invoke] whose name is a plain text
    (printable characters other than the single quote and the backslash)
    different from "Final Answer", whose arguments are a JSON-safe mapping
    (floats apart) and whose encoded body does not hold the closing tag,
    decoding the encoded string returns the same [Invoke]. For a [Finish]
    encoded through the name "Final Answer" whose result has a plain
    [str] form and whose body does not hold the closing tag, decoding
    returns an [AgentFinish] with the [str] form of the result, which is
    the result itself when it is a string. *)
Theorem decode_encode_round_trip :
  (forall (n : string) (arguments : pyval),
      plain_text n = true ->
      eq_str (PStr n) "Final Answer" = false ->
      json_mapping arguments = true ->
      ~ occurs "</action>" (action_body (PStr n) arguments) ->
      decode ast.literal_eval (inr (encode_as_str (PStr n) arguments))
      = Return (Some (FunctionCall (PStr n) arguments))) /\
  (forall result : pyval,
      plain_text (py_str result) = true ->
      ~ occurs "</action>" (action_body (PStr "Final Answer") result) ->
      decode ast.literal_eval
             (inr (encode_as_str (PStr "Final Answer") result))
      = Return (Some (AgentFinish (PStr (py_str result))))
      /\ (is_str result = true ->
          decode ast.literal_eval
                 (inr (encode_as_str (PStr "Final Answer") result))
          = Return (Some (AgentFinish result)))).
Proof.
  split.
  - intros n arguments Hn Hfa Hm Hocc.
    destruct arguments as [| | | | | |kvs]; try discriminate Hm.
    cbn [json_mapping] in Hm.
    rewrite (decode_encoded_body _ _ (PStr n) (PDict kvs));
      [|now apply action_body_invoke|reflexivity|exact Hm|exact Hocc].
    rewrite Hfa. unfold py_or. now destruct kvs.
  - intros result Hr Hocc.
    assert (E : decode ast.literal_eval
                       (inr (encode_as_str (PStr "Final Answer") result))
                = Return (Some (AgentFinish (PStr (py_str result))))).
    { now rewrite (decode_encoded_body _ _ (PStr "Final Answer")
                                       (PStr (py_str result)));
        [|apply action_body_finish|reflexivity|reflexivity|exact Hocc]. }
    split; [exact E|].
    intros Hs. rewrite E. now destruct result; try discriminate Hs.
Qed.

Lemma decode_encode_round_trip_witness :
  decode ast.literal_eval
         (inr (encode_as_str (PStr "search")
                             (PDict [(PStr "query", PStr "weather")])))
  = Return (Some (FunctionCall (PStr "search")
                               (PDict [(PStr "query", PStr "weather")])))
  /\ decode ast.literal_eval
            (inr (encode_as_str (PStr "Final Answer") (PStr "Sunny")))
     = Return (Some (AgentFinish (PStr "Sunny"))).
Proof.
  split.
  - apply (proj1 decode_encode_round_trip
                 "search" (PDict [(PStr "query", PStr "weather")])).
    + reflexivity.
    + reflexivity.
    + reflexivity.
    + apply split_first_none. reflexivity.
  - apply (proj2 decode_encode_round_trip (PStr "Sunny")).
    + reflexivity.
    + apply split_first_none. reflexivity.
    + reflexivity.
Defined.

(** C1, as stated, fails. A [Finish] with the result 42 comes back with
    the string "42"; an [Invoke] whose arguments hold the closing tag in a
    string is cut short by the search, and [decode] raises. *)
Lemma encode_decode_not_inverse :
  decode ast.literal_eval (inr (encode_as_str (PStr "Final Answer") (PInt 42)))
  = Return (Some (AgentFinish (PStr "42")))
  /\ json_mapping (PDict [(PStr "q", PStr "</action>")]) = true
  /\ decode ast.literal_eval
            (inr (encode_as_str (PStr "search")
                                (PDict [(PStr "q", PStr "</action>")])))
     = Raise SyntaxError
  /\ ~ (forall result,
           decode ast.literal_eval
                  (inr (encode_as_str (PStr "Final Answer") result))
           = Return (Some (AgentFinish result)))
  /\ ~ (forall n arguments,
           n <> "" -> json_mapping arguments = true ->
           decode ast.literal_eval (inr (encode_as_str (PStr n) arguments))
           = Return (Some (FunctionCall (PStr n) arguments))).
Proof.
  repeat split; try (vm_compute; reflexivity).
  - intros H. specialize (H (PInt 42)). vm_compute in H. discriminate.
  - intros H.
    specialize (H "search" (PDict [(PStr "q", PStr "</action>")])).
    vm_compute in H. specialize (H ltac:(discriminate) eq_refl).
    discriminate.
Qed.

(** * Further properties of the code *)

(** ** The search and [decode] *)

Lemma split_first_no_earlier (c : ascii) (q s a b : string) :
  split_first (String c q) s = Some (a, b) -> ~ occurs (String c q) a.
Proof.
  intros H (x & y & E).
  pose proof (split_first_sound _ _ _ _ H) as Hs.
  assert (L : String.length a <= String.length x).
  { apply (split_first_minimal _ _ _ _ x (y ++ String c q ++ b) H).
    rewrite Hs, E. now rewrite !append_assoc. }
  rewrite E, !length_append in L. simpl in L. lia.
Qed.

(** X1: the search returns a blob exactly for the texts of the form
    [pre ++ "<action>" ++ blob ++ "</action>" ++ post] in which [pre] holds
    no opening tag and [blob] no closing tag: the match is the leftmost
    one and the group the shortest one. *)
Theorem pattern_search_spec (text blob : string) :
  pattern_search text = Some blob <->
  exists pre post,
    text = pre ++ "<action>" ++ blob ++ "</action>" ++ post /\
    ~ occurs "<action>" pre /\
    ~ occurs "</action>" blob.
Proof.
  split.
  - unfold pattern_search.
    destruct (split_first "<action>" text) as [[pre after]|] eqn:S1;
      [|discriminate].
    destruct (split_first "</action>" after) as [[b post]|] eqn:S2;
      [|discriminate].
    intros H. inversion H; subst b. exists pre, post.
    split; [|split].
    + rewrite (split_first_sound _ _ _ _ S1).
      now rewrite (split_first_sound _ _ _ _ S2).
    + exact (split_first_no_earlier _ _ _ _ _ S1).
    + exact (split_first_no_earlier _ _ _ _ _ S2).
  - intros (pre & post & -> & Hpre & Hblob).
    now apply pattern_search_first.
Qed.

Lemma pattern_search_spec_witness :
  pattern_search "Thought: search.<action>{'a': 1}</action> then </action>"
  = Some "{'a': 1}".
Proof.
  apply (proj2 (pattern_search_spec
                  "Thought: search.<action>{'a': 1}</action> then </action>"
                  "{'a': 1}")).
  exists "Thought: search.", " then </action>".
  split; [reflexivity|].
  split; apply split_first_none; reflexivity.
Defined.

(** X2: whatever the text and the evaluator, an entry returned by [decode]
    is an [AgentFinish] or a [FunctionCall]; the name of a decoded
    [FunctionCall] is never "Final Answer" and its arguments are a true
    value or the empty mapping. *)
Theorem decode_result_kinds
        (literal_eval : string -> outcome pyval)
        (text : BaseMessage + string) (m : MessageLike) :
  decode literal_eval text = Return (Some m) ->
  (exists result, m = AgentFinish result) \/
  (exists name arguments,
      m = FunctionCall name arguments /\
      eq_str name "Final Answer" = false /\
      (py_truthy arguments = true \/ arguments = PDict [])).
Proof.
  rewrite decode_unfold.
  destruct (pattern_search (text_of text)) as [blob|]; [|discriminate].
  destruct (literal_eval blob) as [data| |]; cbn [bind]; try discriminate.
  destruct (subscript data "action") as [n| |]; cbn [bind]; try discriminate.
  destruct (eq_str n "Final Answer") eqn:En.
  - destruct (subscript data "action_input") as [i| |]; cbn [bind];
      try discriminate.
    intros H. inversion H. left. eauto.
  - destruct (subscript data "action_input") as [i| |]; cbn [bind];
      try discriminate.
    intros H. inversion H. right. exists n, (py_or i (PDict [])).
    split; [reflexivity|]. split; [exact En|].
    unfold py_or. destruct (py_truthy i) eqn:Et; auto.
Qed.

Lemma decode_result_kinds_witness :
  (exists result, FunctionCall (PStr "search") (PDict []) = AgentFinish result)
  \/ (exists name arguments,
         FunctionCall (PStr "search") (PDict []) = FunctionCall name arguments
         /\ eq_str name "Final Answer" = false
         /\ (py_truthy arguments = true \/ arguments = PDict [])).
Proof.
  apply (decode_result_kinds
           ast.literal_eval
           (inr "<action>{'action': 'search', 'action_input': None}</action>")).
  vm_compute. reflexivity.
Defined.

(** X3: the error of [decode] on a block. An exception of the literal
    evaluator goes through unchanged; a value that is not a mapping (a
    list, a string, a number, [None]) raises [TypeError]; a mapping that
    lacks the key [action] or the key [action_input] raises [KeyError],
    for a "Final Answer" block as for any other. *)
Theorem decode_error_classes
        (literal_eval : string -> outcome pyval)
        (text : BaseMessage + string) (blob : string) :
  pattern_search (text_of text) = Some blob ->
  (forall e,
      literal_eval blob = Raise e -> decode literal_eval text = Raise e) /\
  (forall data,
      literal_eval blob = Return data -> is_dict data = false ->
      decode literal_eval text = Raise TypeError) /\
  (forall kvs,
      literal_eval blob = Return (PDict kvs) ->
      dict_get kvs (PStr "action") = None \/
      dict_get kvs (PStr "action_input") = None ->
      decode literal_eval text = Raise KeyError).
Proof.
  intros Hs. rewrite decode_unfold, Hs. repeat split.
  - intros e He. now rewrite He.
  - intros data He Hd. rewrite He. cbn [bind].
    destruct data; try discriminate Hd; reflexivity.
  - intros kvs He Hk. rewrite He. cbn [bind]. unfold subscript.
    destruct (dict_get kvs (PStr "action")) as [a|]; [|reflexivity].
    destruct Hk as [Hk|Hk]; [discriminate|]. rewrite Hk. cbn [bind].
    destruct (eq_str a "Final Answer"); reflexivity.
Qed.

Lemma decode_error_classes_witness :
  decode ast.literal_eval (inr "<action>['search', 1]</action>")
  = Raise TypeError
  /\ decode ast.literal_eval
            (inr "<action>{'action': 'Final Answer'}</action>")
     = Raise KeyError.
Proof.
  split.
  - apply (proj1 (proj2 (decode_error_classes
                           ast.literal_eval
                           (inr "<action>['search', 1]</action>")
                           "['search', 1]" eq_refl))
                 (PList [PStr "search"; PInt 1])); reflexivity.
  - apply (proj2 (proj2 (decode_error_classes
                           ast.literal_eval
                           (inr "<action>{'action': 'Final Answer'}</action>")
                           "{'action': 'Final Answer'}" eq_refl))
                 [(PStr "action", PStr "Final Answer")]).
    + reflexivity.
    + right. reflexivity.
Defined.

(** X4: a "Final Answer" block gives an [AgentFinish] with the value of
    [action_input] as it is: unlike the arguments of a [FunctionCall], a
    false result ([None], [0], an empty string or container) is kept and
    not replaced by the empty mapping. *)
Theorem decode_finish_keeps_result
        (literal_eval : string -> outcome pyval)
        (text : BaseMessage + string) (blob : string)
        (data result : pyval) :
  pattern_search (text_of text) = Some blob ->
  literal_eval blob = Return data ->
  subscript data "action" = Return (PStr "Final Answer") ->
  subscript data "action_input" = Return result ->
  decode literal_eval text = Return (Some (AgentFinish result)).
Proof.
  intros Hs He Ha Hi.
  now rewrite (decode_block _ _ _ _ _ _ Hs He Ha Hi).
Qed.

Lemma decode_finish_keeps_result_witness :
  decode ast.literal_eval
         (inr "<action>{'action': 'Final Answer', 'action_input': None}</action>")
  = Return (Some (AgentFinish PNone)).
Proof.
  apply (decode_finish_keeps_result
           ast.literal_eval
           (inr "<action>{'action': 'Final Answer', 'action_input': None}</action>")
           "{'action': 'Final Answer', 'action_input': None}"
           (PDict [(PStr "action", PStr "Final Answer");
                   (PStr "action_input", PNone)])
           PNone); reflexivity.
Defined.

(** ** [encode_as_str] followed by [decode] *)

(** X5: an encoded action always holds a delimited block: whatever the
    name, the arguments and the evaluator, the search finds a blob in the
    text of [encode_as_str] and [decode] never answers [None] for it; the
    blob is the whole encoded body when that body holds no closing tag. *)
Theorem decode_encoded_never_none
        (literal_eval : string -> outcome pyval) (name arguments : pyval) :
  (exists blob, pattern_search (encode_as_str name arguments) = Some blob) /\
  decode literal_eval (inr (encode_as_str name arguments)) <> Return None /\
  (~ occurs "</action>" (action_body name arguments) ->
   pattern_search (encode_as_str name arguments)
   = Some (action_body name arguments)).
Proof.
  assert (E : exists blob,
             pattern_search (encode_as_str name arguments) = Some blob).
  { destruct (pattern_search (encode_as_str name arguments)) as [blob|] eqn:S;
      [eauto|].
    exfalso. apply pattern_search_none in S. apply S.
    exists "", (action_body name arguments), "".
    rewrite encode_as_str_tags. reflexivity. }
  split; [exact E|]. split.
  - destruct E as (blob & E). rewrite decode_unfold. unfold text_of.
    rewrite E.
    destruct (literal_eval blob) as [data| |]; cbn [bind]; try discriminate.
    destruct (subscript data "action") as [n| |]; cbn [bind];
      try discriminate.
    destruct (eq_str n "Final Answer");
      destruct (subscript data "action_input"); discriminate.
  - intros Hocc. rewrite encode_as_str_tags.
    apply (pattern_search_first "" _ ""); [|exact Hocc].
    apply split_first_none. reflexivity.
Qed.

Lemma decode_encoded_never_none_witness :
  pattern_search (encode_as_str (PStr "search") (PDict [(PStr "q", PInt 1)]))
  = Some (action_body (PStr "search") (PDict [(PStr "q", PInt 1)])).
Proof.
  apply (proj2 (proj2 (decode_encoded_never_none
                         ast.literal_eval (PStr "search")
                         (PDict [(PStr "q", PInt 1)])))).
  apply split_first_none. reflexivity.
Defined.

(** X6: encoding then decoding replaces false arguments by the empty
    mapping. For a plain name other than "Final Answer" and JSON-safe
    arguments that are not a string, with no closing tag in the encoded
    body, [decode] returns the [FunctionCall] with the same name and the
    arguments [arguments or {}]: the arguments [None], [0], [False] and
    the empty list come back as the empty mapping. *)
Theorem decode_encode_arguments_or_empty (n : string) (arguments : pyval) :
  plain_text n = true ->
  eq_str (PStr n) "Final Answer" = false ->
  json_safe arguments = true ->
  is_str arguments = false ->
  ~ occurs "</action>" (action_body (PStr n) arguments) ->
  decode ast.literal_eval (inr (encode_as_str (PStr n) arguments))
  = Return (Some (FunctionCall (PStr n) (py_or arguments (PDict [])))).
Proof.
  intros Hn Hfa Hsafe Hstr Hocc.
  rewrite (decode_encoded_body _ _ (PStr n) arguments);
    [|now apply action_body_invoke|reflexivity|exact Hsafe|exact Hocc].
  now rewrite Hfa.
Qed.

Lemma decode_encode_arguments_or_empty_witness :
  decode ast.literal_eval (inr (encode_as_str (PStr "stop") PNone))
  = Return (Some (FunctionCall (PStr "stop") (PDict []))).
Proof.
  apply (decode_encode_arguments_or_empty "stop" PNone);
    try reflexivity.
  apply split_first_none. reflexivity.
Defined.

(** ** [prompt_generator] *)

Lemma prompt_generator_cons (e : MessageLike) (log : MessageLog) :
  prompt_generator (e :: log)
  = (prompt_generator [e] ++ prompt_generator log)%list.
Proof.
  unfold prompt_generator at 1. cbn [fold_left].
  rewrite prompt_generator_fold. reflexivity.
Qed.

(** X7: the messages of the prompt are exactly the messages of the log and
    one observation per function result: the projection invents no message
    and loses none of these. *)
Theorem prompt_generator_members (log : MessageLog) (m : BaseMessage) :
  In m (prompt_generator log) <->
  In (Message m) log \/
  exists result,
    In (FunctionResult result) log /\
    m = SystemMessage ("Observation: " ++ py_str result).
Proof.
  induction log as [|e log IH].
  - simpl. split; [contradiction|]. intros [[]|(r & [] & _)].
  - rewrite prompt_generator_cons, in_app_iff, IH. split.
    + intros [H|[H|(r & H & E)]].
      * destruct e as [m0| |r|]; simpl in H; try contradiction.
        -- destruct H as [<-|[]]. left. now left.
        -- destruct H as [<-|[]]. right. exists r. split; [now left|reflexivity].
      * left. now right.
      * right. exists r. split; [now right|exact E].
    + intros [[->|H]|(r & [->|H] & E)].
      * left. now left.
      * right. now left.
      * left. subst m. now left.
      * right. right. eauto.
Qed.

Lemma prompt_generator_members_witness :
  In (SystemMessage "Observation: 42")
     (prompt_generator [Message (HumanMessage "hi"); FunctionResult (PInt 42)]).
Proof.
  apply (proj2 (prompt_generator_members
                  [Message (HumanMessage "hi"); FunctionResult (PInt 42)]
                  (SystemMessage "Observation: 42"))).
  right. exists (PInt 42). split; [right; left; reflexivity|reflexivity].
Defined.

(** X8: the prompt has one message per message or function result of the
    log, so it is never longer than the log. *)
Theorem prompt_generator_length (log : MessageLog) :
  List.length (prompt_generator log) = List.length (filter presentable log)
  /\ List.length (prompt_generator log) <= List.length log.
Proof.
  assert (E : List.length (prompt_generator log)
              = List.length (filter presentable log)).
  { induction log as [|e log IH]; [reflexivity|].
    rewrite prompt_generator_cons, length_app, IH.
    destruct e; reflexivity. }
  split; [exact E|]. rewrite E. apply filter_length_le.
Qed.

(** X9: a log that holds messages only is its own prompt. *)
Theorem prompt_generator_messages_only (messages : list BaseMessage) :
  prompt_generator (map Message messages) = messages.
Proof.
  induction messages as [|m messages IH]; [reflexivity|].
  cbn [map]. rewrite prompt_generator_cons, IH. reflexivity.
Qed.

(** ** [ChatAgent.run] *)

Section RunMoreFacts.

Variable llm_program_invoke : nat -> MessageLog -> outcome (list MessageLike).

Lemma last_message_nonempty (log : MessageLog) :
  log <> [] -> exists m, last_message log = Return m.
Proof.
  intros N. destruct (last_message_in log N) as (m & E & _). eauto.
Qed.

Lemma last_message_return (log : MessageLog) (m : MessageLike) :
  last_message log = Return m -> log <> [].
Proof. intros H ->. discriminate H. Qed.

Lemma run_loop_appends (budget : nat) (log : MessageLog) (calls : nat) :
  exists appended,
    final_log (run_loop llm_program_invoke budget log calls)
    = (log ++ appended)%list.
Proof.
  revert log calls; induction budget as [|budget IH]; intros log calls;
    cbn [run_loop].
  - exists []. now rewrite app_nil_r.
  - destruct (last_message log) as [last| |];
      try (exists []; now rewrite app_nil_r).
    destruct (is_finish last); [exists []; now rewrite app_nil_r|].
    destruct (llm_program_invoke calls log) as [messages| |];
      try (exists []; now rewrite app_nil_r).
    destruct (IH (add_messages log messages) (S calls)) as (appended & ->).
    exists (messages ++ appended)%list.
    unfold add_messages. now rewrite app_assoc.
Qed.

Lemma run_loop_finished (budget : nat) (log : MessageLog) (calls : nat)
      (result : pyval) :
  last_message log = Return (AgentFinish result) ->
  run_loop llm_program_invoke budget log calls = mkRun (Return tt) log calls.
Proof. intros H. destruct budget; cbn [run_loop]; [|rewrite H]; reflexivity. Qed.

Lemma run_loop_error_origin (budget : nat) (log : MessageLog) (calls : nat)
      (e : exn) :
  log <> [] ->
  ending (run_loop llm_program_invoke budget log calls) = Raise e ->
  exists k l,
    llm_program_invoke k l = Raise e /\
    invocations (run_loop llm_program_invoke budget log calls) = S k /\
    final_log (run_loop llm_program_invoke budget log calls) = l.
Proof.
  revert log calls; induction budget as [|budget IH]; intros log calls N;
    cbn [run_loop].
  - discriminate.
  - destruct (last_message_nonempty log N) as (last & ->).
    destruct (is_finish last); [discriminate|].
    destruct (llm_program_invoke calls log) as [messages|e'|] eqn:L;
      cbn [ending invocations final_log].
    + apply IH. unfold add_messages. destruct log; [contradiction|discriminate].
    + intros H. inversion H; subst e'. exists calls, log. auto.
    + discriminate.
Qed.

Lemma run_loop_return (budget : nat) (log : MessageLog) (calls : nat) :
  ending (run_loop llm_program_invoke budget log calls) = Return tt ->
  (exists result,
      last_message (final_log (run_loop llm_program_invoke budget log calls))
      = Return (AgentFinish result)) \/
  invocations (run_loop llm_program_invoke budget log calls) = calls + budget.
Proof.
  revert log calls; induction budget as [|budget IH]; intros log calls;
    cbn [run_loop].
  - intros _. right. cbn [invocations]. lia.
  - destruct (last_message log) as [last| |] eqn:L; try discriminate.
    destruct last as [m|n a|r|r]; cbn [is_finish];
      try (destruct (llm_program_invoke calls log) as [messages| |];
           try discriminate;
           intros H; destruct (IH _ _ H) as [F|F]; [left; exact F|right; lia]).
    intros _. left. exists r. exact L.
Qed.

Lemma run_loop_total (budget : nat) (log : MessageLog) (calls : nat) :
  (forall k l, exists messages, llm_program_invoke k l = Return messages) ->
  log <> [] ->
  ending (run_loop llm_program_invoke budget log calls) = Return tt.
Proof.
  intros T. revert log calls; induction budget as [|budget IH];
    intros log calls N; cbn [run_loop]; [reflexivity|].
  destruct (last_message_nonempty log N) as (last & ->).
  destruct (is_finish last); [reflexivity|].
  destruct (T calls log) as (messages & ->).
  apply IH. unfold add_messages. destruct log; [contradiction|discriminate].
Qed.

Lemma run_loop_more_budget (budget : nat) :
  forall (log : MessageLog) (calls : nat) (result : pyval) (budget' : nat),
    ending (run_loop llm_program_invoke budget log calls) = Return tt ->
    last_message (final_log (run_loop llm_program_invoke budget log calls))
    = Return (AgentFinish result) ->
    budget <= budget' ->
    run_loop llm_program_invoke budget' log calls
    = run_loop llm_program_invoke budget log calls.
Proof.
  induction budget as [|budget IH]; intros log calls result budget' He Hl Hb.
  - cbn [run_loop final_log] in *. now apply (run_loop_finished _ _ _ result).
  - destruct budget' as [|budget']; [lia|].
    cbn [run_loop] in *.
    destruct (last_message log) as [last| |]; try reflexivity.
    destruct (is_finish last); [reflexivity|].
    destruct (llm_program_invoke calls log) as [messages| |]; try reflexivity.
    apply (IH _ _ result); [exact He|exact Hl|lia].
Qed.

End RunMoreFacts.

(** X10: [run] only appends: whatever the program does and however the
    call ends, the final log starts with the initial log. *)
Theorem run_only_appends
        (llm_program_invoke : nat -> MessageLog -> outcome (list MessageLike))
        (max_iterations : Z) (message_log : MessageLog) :
  exists appended,
    final_log (run llm_program_invoke max_iterations message_log)
    = (message_log ++ appended)%list.
Proof.
  destruct message_log as [|m log]; [exists []; reflexivity|].
  apply run_loop_appends.
Qed.

(** X11: on a log that already ends with an [AgentFinish], [run] returns at
    once, whatever its budget: the program is not invoked and the log is
    unchanged. *)
Theorem run_finished_log_untouched
        (llm_program_invoke : nat -> MessageLog -> outcome (list MessageLike))
        (max_iterations : Z) (earlier : MessageLog) (result : pyval) :
  run llm_program_invoke max_iterations (earlier ++ [AgentFinish result])%list
  = mkRun (Return tt) (earlier ++ [AgentFinish result])%list 0.
Proof.
  unfold run.
  destruct (earlier ++ [AgentFinish result])%list as [|m log] eqn:E.
  - destruct earlier; discriminate.
  - rewrite <- E. apply (run_loop_finished _ _ _ _ result).
    apply last_message_app.
Qed.

(** X12: with a budget of zero or less, [run] on a non-empty log returns
    normally without invoking the program and leaves the log as it is. *)
Theorem run_no_budget
        (llm_program_invoke : nat -> MessageLog -> outcome (list MessageLike))
        (max_iterations : Z) (message_log : MessageLog) :
  (max_iterations <= 0)%Z ->
  message_log <> [] ->
  run llm_program_invoke max_iterations message_log
  = mkRun (Return tt) message_log 0.
Proof.
  intros Hm N. destruct message_log as [|m log]; [contradiction|].
  unfold run. replace (Z.to_nat max_iterations) with 0 by lia. reflexivity.
Qed.

Lemma run_no_budget_witness :
  run (fun _ _ => Raise ValueError) (-1) [Message (HumanMessage "hi")]
  = mkRun (Return tt) [Message (HumanMessage "hi")] 0.
Proof.
  apply (run_no_budget (fun _ _ => Raise ValueError) (-1)
                       [Message (HumanMessage "hi")]).
  - lia.
  - discriminate.
Defined.

(** X13: an exception that ends [run] is either the assertion on the
    empty log, before any invocation, or the exception of an invocation of
    the program; in that case the failing invocation is the last one
    counted and the final log is the log that invocation was given, with
    nothing appended for it. *)
Theorem run_error_origin
        (llm_program_invoke : nat -> MessageLog -> outcome (list MessageLike))
        (max_iterations : Z) (message_log : MessageLog) (e : exn) :
  ending (run llm_program_invoke max_iterations message_log) = Raise e ->
  (message_log = [] /\ e = AssertionError /\
   invocations (run llm_program_invoke max_iterations message_log) = 0) \/
  (exists k l,
      llm_program_invoke k l = Raise e /\
      invocations (run llm_program_invoke max_iterations message_log) = S k /\
      final_log (run llm_program_invoke max_iterations message_log) = l).
Proof.
  destruct message_log as [|m log]; cbn [run].
  - intros H. inversion H. left. auto.
  - intros H. right. apply run_loop_error_origin; [discriminate|exact H].
Qed.

Lemma run_error_origin_witness :
  ([Message (HumanMessage "hi")] = [] /\ ValueError = AssertionError /\
   invocations (run (fun _ _ => Raise ValueError) 5
                    [Message (HumanMessage "hi")]) = 0) \/
  (exists k l,
      (fun (_ : nat) (_ : MessageLog) => @Raise (list MessageLike) ValueError)
        k l = Raise ValueError /\
      invocations (run (fun _ _ => Raise ValueError) 5
                       [Message (HumanMessage "hi")]) = S k /\
      final_log (run (fun _ _ => Raise ValueError) 5
                     [Message (HumanMessage "hi")]) = l).
Proof.
  apply (run_error_origin (fun _ _ => Raise ValueError) 5
                          [Message (HumanMessage "hi")] ValueError).
  reflexivity.
Defined.

(** X14: when [run] returns normally on a non-empty log, the log ends with
    an [AgentFinish] or the whole budget of invocations was used. *)
Theorem run_return_finished_or_exhausted
        (llm_program_invoke : nat -> MessageLog -> outcome (list MessageLike))
        (max_iterations : Z) (message_log : MessageLog) :
  message_log <> [] ->
  ending (run llm_program_invoke max_iterations message_log) = Return tt ->
  (exists result,
      last_message (final_log (run llm_program_invoke max_iterations message_log))
      = Return (AgentFinish result)) \/
  invocations (run llm_program_invoke max_iterations message_log)
  = Z.to_nat max_iterations.
Proof.
  intros N. destruct message_log as [|m log]; [contradiction|]. cbn [run].
  intros H. destruct (run_loop_return _ _ _ _ H) as [F|F]; [left; exact F|].
  right. exact F.
Qed.

Lemma run_return_finished_or_exhausted_witness :
  (exists result,
      last_message
        (final_log (run (fun _ _ => Return [AgentFinish (PStr "done")]) 4
                        [Message (HumanMessage "hi")]))
      = Return (AgentFinish result)) \/
  invocations (run (fun _ _ => Return [AgentFinish (PStr "done")]) 4
                   [Message (HumanMessage "hi")])
  = Z.to_nat 4.
Proof.
  apply (run_return_finished_or_exhausted
           (fun _ _ => Return [AgentFinish (PStr "done")]) 4
           [Message (HumanMessage "hi")]).
  - discriminate.
  - reflexivity.
Defined.

(** X15: [run] raises nothing of its own on a non-empty log: when every
    invocation of the program returns entries, [run] returns normally; in
    particular the last entry [message_log[-1]] always exists. *)
Theorem run_total_program_returns
        (llm_program_invoke : nat -> MessageLog -> outcome (list MessageLike))
        (max_iterations : Z) (message_log : MessageLog) :
  (forall k l, exists messages, llm_program_invoke k l = Return messages) ->
  message_log <> [] ->
  ending (run llm_program_invoke max_iterations message_log) = Return tt.
Proof.
  intros T N. destruct message_log as [|m log]; [contradiction|]. cbn [run].
  now apply run_loop_total.
Qed.

Lemma run_total_program_returns_witness :
  ending (run (fun _ _ => Return []) 3 [Message (HumanMessage "hi")])
  = Return tt.
Proof.
  apply (run_total_program_returns (fun _ _ => Return []) 3
                                   [Message (HumanMessage "hi")]).
  - intros k l. exists []. reflexivity.
  - discriminate.
Defined.

(** X16: once a run has finished with an [AgentFinish], a larger budget
    changes nothing: [run] with any greater [max_iterations] gives the
    same ending, the same final log and the same number of invocations. *)
Theorem run_finished_budget_irrelevant
        (llm_program_invoke : nat -> MessageLog -> outcome (list MessageLike))
        (max_iterations max_iterations' : Z) (message_log : MessageLog)
        (result : pyval) :
  ending (run llm_program_invoke max_iterations message_log) = Return tt ->
  last_message (final_log (run llm_program_invoke max_iterations message_log))
  = Return (AgentFinish result) ->
  (max_iterations <= max_iterations')%Z ->
  run llm_program_invoke max_iterations' message_log
  = run llm_program_invoke max_iterations message_log.
Proof.
  destruct message_log as [|m log]; [discriminate|]. cbn [run].
  intros He Hl Hb. apply (run_loop_more_budget _ _ _ _ result); auto. lia.
Qed.

Lemma run_finished_budget_irrelevant_witness :
  run (fun _ _ => Return [AgentFinish (PStr "done")]) 10
      [Message (HumanMessage "hi")]
  = run (fun _ _ => Return [AgentFinish (PStr "done")]) 1
        [Message (HumanMessage "hi")].
Proof.
  apply (run_finished_budget_irrelevant
           (fun _ _ => Return [AgentFinish (PStr "done")]) 1 10
           [Message (HumanMessage "hi")] (PStr "done")).
  - reflexivity.
  - reflexivity.
  - lia.
Defined.
